(** * Customer churn project: the ETL normalizer of [load_into_sql.py] and
    the filter / summary computations of [streamlit_app/app.py].

    The pandas data frames are modelled row-wise.  A cell is what a pandas
    object column can hold here: a string, an integer, a decimal number
    (float values are modelled by exact rationals [Q]), a signed infinity or
    the missing value NaN/None. *)

From Stdlib Require Import List String Ascii ZArith QArith Qabs Bool Lia Btauto.
Import ListNotations.
Open Scope string_scope.
Open Scope list_scope.

(** ** Cells and raw rows *)

Inductive cell : Type :=
| CStr (s : string)
| CInt (z : Z)
| CNum (q : Q)
| CInf (neg : bool)
| CNull.

(** Equality of cells as pandas compares merge keys and dictionary keys:
    values of different kinds never match, two missing values match. *)
Definition cell_eqb (a b : cell) : bool :=
  match a, b with
  | CStr s, CStr t => String.eqb s t
  | CInt x, CInt y => Z.eqb x y
  | CNum p, CNum q => Qeq_bool p q
  | CInf a, CInf b => Bool.eqb a b
  | CNull, CNull => true
  | _, _ => false
  end.

(** The columns of the cleaned Telco CSV read at line 8. *)
Inductive column : Type :=
| customerID | gender | SeniorCitizen | Partner | Dependents | tenure
| PhoneService | MultipleLines | InternetService | OnlineSecurity
| OnlineBackup | DeviceProtection | TechSupport | StreamingTV
| StreamingMovies | Contract | PaperlessBilling | PaymentMethod
| MonthlyCharges | TotalCharges | Churn.

Definition column_eqb (a b : column) : bool :=
  match a, b with
  | customerID, customerID | gender, gender | SeniorCitizen, SeniorCitizen
  | Partner, Partner | Dependents, Dependents | tenure, tenure
  | PhoneService, PhoneService | MultipleLines, MultipleLines
  | InternetService, InternetService | OnlineSecurity, OnlineSecurity
  | OnlineBackup, OnlineBackup | DeviceProtection, DeviceProtection
  | TechSupport, TechSupport | StreamingTV, StreamingTV
  | StreamingMovies, StreamingMovies | Contract, Contract
  | PaperlessBilling, PaperlessBilling | PaymentMethod, PaymentMethod
  | MonthlyCharges, MonthlyCharges | TotalCharges, TotalCharges
  | Churn, Churn => true
  | _, _ => false
  end.

(** A row of [df]: the cell held in each column. *)
Definition row := column -> cell.

(** A data frame, row by row, in order. *)
Definition frame := list row.

(** [df[col] = df[col].<f>]: a column-wise, element-wise update. *)
Definition update_col (col : column) (f : cell -> cell) (r : row) : row :=
  fun c => if column_eqb c col then f (r col) else r c.

Definition assign_col (col : column) (f : cell -> cell) (df : frame) : frame :=
  map (update_col col f) df.

(** ** Step 2: boolean columns, [Series.map({"Yes": 1, "No": 0})].
    A value that is not a key of the dictionary is mapped to NaN. *)
Definition yes_no_map (v : cell) : cell :=
  match v with
  | CStr s =>
      if String.eqb s "Yes" then CInt 1
      else if String.eqb s "No" then CInt 0
      else CNull
  | _ => CNull
  end.

Definition bool_cols : list column :=
  [Partner; Dependents; PhoneService; PaperlessBilling].

(** Lines 15-19: the loop over [bool_cols], then [SeniorCitizen]. *)
Definition clean_bool (df : frame) : frame :=
  assign_col SeniorCitizen yes_no_map
    (fold_left (fun d col => assign_col col yes_no_map d) bool_cols df).

(** ** Step 3: [Series.replace({"No phone service": "No",
    "No internet service": "No"})]. *)
Definition no_service_replace (v : cell) : cell :=
  match v with
  | CStr s =>
      if String.eqb s "No phone service" then CStr "No"
      else if String.eqb s "No internet service" then CStr "No"
      else v
  | _ => v
  end.

Definition replace_cols : list column :=
  [MultipleLines; OnlineSecurity; OnlineBackup; DeviceProtection;
   TechSupport; StreamingTV; StreamingMovies].

Definition clean_replace (df : frame) : frame :=
  fold_left (fun d col => assign_col col no_service_replace d) replace_cols df.

(** ** Step 4: [pd.to_numeric(.., errors="coerce").fillna(0)].
    [to_numeric] hands each string to pandas' [floatify], which runs the C
    parser [precise_xstrtod] over the UTF-8 bytes of the string (up to the
    first NUL byte) and, when that fails, accepts the literals inf and
    infinity; a string that still fails becomes NaN.  The value is the
    parser's [number * 10^exponent] as an exact rational: the binary
    rounding of the double is not modelled (as everywhere in this file),
    and neither is the rounding at the overflow boundary. *)

(** [isspace_ascii]: space, \t, \n, \v, \f and \r. *)
Definition isspace_ascii (a : ascii) : bool :=
  let n := nat_of_ascii a in
  (n =? 32)%nat || ((9 <=? n)%nat && (n <=? 13)%nat).

Definition digit_val (a : ascii) : option Z :=
  let n := nat_of_ascii a in
  if (48 <=? n)%nat && (n <=? 57)%nat then Some (Z.of_nat (n - 48)) else None.

Fixpoint skip_space (l : list ascii) : list ascii :=
  match l with
  | a :: l' => if isspace_ascii a then skip_space l' else l
  | [] => []
  end.

(** The integer digits: the first 17 digits are accumulated, each further
    one raises the exponent. *)
Fixpoint int_digits (l : list ascii) (number exponent : Z) (nd : nat)
  : Z * Z * nat * list ascii :=
  match l with
  | a :: l' =>
      match digit_val a with
      | Some d =>
          if (nd <? 17)%nat then int_digits l' (number * 10 + d) exponent (S nd)
          else int_digits l' number (exponent + 1) nd
      | None => (number, exponent, nd, l)
      end
  | [] => (number, exponent, nd, [])
  end.

(** The decimal digits, while fewer than 17 digits have been read. *)
Fixpoint frac_digits (l : list ascii) (number : Z) (nd ndec : nat)
  : Z * nat * nat * list ascii :=
  match l with
  | a :: l' =>
      match digit_val a with
      | Some d =>
          if (nd <? 17)%nat then frac_digits l' (number * 10 + d) (S nd) (S ndec)
          else (number, nd, ndec, l)
      | None => (number, nd, ndec, l)
      end
  | [] => (number, nd, ndec, [])
  end.

Fixpoint skip_digits (l : list ascii) : list ascii :=
  match l with
  | a :: l' => match digit_val a with Some _ => skip_digits l' | None => l end
  | [] => []
  end.

(** The exponent digits, at most 17. *)
Fixpoint exp_digits (l : list ascii) (n : Z) (k : nat) : Z * nat * list ascii :=
  match l with
  | a :: l' =>
      match digit_val a with
      | Some d => if (k <? 17)%nat then exp_digits l' (n * 10 + d) (S k) else (n, k, l)
      | None => (n, k, l)
      end
  | [] => (n, k, [])
  end.

Definition pow10 (e : Z) : Q :=
  if (0 <=? e)%Z then inject_Z (10 ^ e) else 1 # Z.to_pos (10 ^ (- e)).

(** The magnitude from which a double rounds to [HUGE_VAL]. *)
Definition huge_val_bound : Q := inject_Z (2 ^ 1024 - 2 ^ 970).

Definition is_sci (a : ascii) : bool := Ascii.eqb a "e"%char || Ascii.eqb a "E"%char.

(** [precise_xstrtod(str, &end, '.', 'E', '\0', 1, &error, &maybe_int)]:
    [None] when the error flag is set (no digit, an exponent above 308,
    overflow); otherwise the value, [maybe_int] (no '.' and no exponent
    marker seen) and the unread rest after the trailing spaces. *)
Definition precise_xstrtod (l : list ascii) : option (Q * bool * list ascii) :=
  let p := skip_space l in
  let '(negative, p) :=
    match p with
    | "-"%char :: p' => (true, p')
    | "+"%char :: p' => (false, p')
    | _ => (false, p)
    end in
  let '(number, exponent, nd, p) := int_digits p 0 0 0 in
  let '(number, nd, ndec, dot, p) :=
    match p with
    | "."%char :: p' =>
        let '(number, nd', ndec, p'') := frac_digits p' number nd 0 in
        (number, nd', ndec, true, if (17 <=? nd')%nat then skip_digits p'' else p'')
    | _ => (number, nd, 0%nat, false, p)
    end in
  let exponent := (exponent - Z.of_nat ndec)%Z in
  let number := if negative then (- number)%Z else number in
  if (nd =? 0)%nat then None else
  let '(exponent, sci, p) :=
    match p with
    | a :: p1 =>
        if is_sci a then
          let '(eneg, signed, p2) :=
            match p1 with
            | "-"%char :: p2 => (true, true, p2)
            | "+"%char :: p2 => (false, true, p2)
            | _ => (false, false, p1)
            end in
          let '(n, k, p3) := exp_digits p2 0 0 in
          let exponent := if eneg then (exponent - n)%Z else (exponent + n)%Z in
          (* with no exponent digit the pointer steps back one character *)
          (exponent, true,
           if (k =? 0)%nat then (if signed then p1 else a :: p1) else p3)
        else (exponent, false, p)
    | [] => (exponent, false, [])
    end in
  if (308 <? exponent)%Z then None else
  let value := if (exponent <? -616)%Z then 0 else inject_Z number * pow10 exponent in
  if Qle_bool huge_val_bound (Qabs value) then None else
  Some (value, negb (dot || sci), skip_space p).

(** [to_double]: no error and nothing left unread. *)
Definition to_double (l : list ascii) : option (Q * bool) :=
  match precise_xstrtod l with
  | Some (v, maybe_int, []) => Some (v, maybe_int)
  | _ => None
  end.

(** The bytes a C function sees: up to the first NUL. *)
Fixpoint c_data (l : list ascii) : list ascii :=
  match l with
  | a :: l' => if (nat_of_ascii a =? 0)%nat then [] else a :: c_data l'
  | [] => []
  end.

Definition has_nul (l : list ascii) : bool := existsb (fun a => (nat_of_ascii a =? 0)%nat) l.

Definition ascii_lower (a : ascii) : ascii :=
  let n := nat_of_ascii a in
  if (65 <=? n)%nat && (n <=? 90)%nat then ascii_of_nat (n + 32) else a.

(** A parsed float: finite, or infinite with its sign. *)
Inductive fvalue : Type := FFinite (q : Q) | FInf (neg : bool).

(** [floatify]: [to_double], then the case-insensitive literals
    inf, +inf, -inf, infinity, +infinity, -infinity; [None] is the
    [ValueError] it raises. *)
Definition floatify (s : string) : option (fvalue * bool) :=
  let data := c_data (list_ascii_of_string s) in
  match to_double data with
  | Some (v, maybe_int) => Some (FFinite v, maybe_int)
  | None =>
      let t := string_of_list_ascii (map ascii_lower data) in
      if String.eqb t "inf" || String.eqb t "+inf" ||
         String.eqb t "infinity" || String.eqb t "+infinity"
      then Some (FInf false, false)
      else if String.eqb t "-inf" || String.eqb t "-infinity"
      then Some (FInf true, false)
      else None
  end.

(** One string in [lib.maybe_convert_numeric(.., coerce_numeric=True)]: a
    parse error gives NaN; an integer-looking value is also converted by
    Python's [int(val)], which raises (hence NaN) on a NUL byte. *)
Definition convert_numeric_str (s : string) : cell :=
  match floatify s with
  | Some (FFinite q, maybe_int) =>
      if maybe_int && has_nul (list_ascii_of_string s) then CNull else CNum q
  | Some (FInf b, _) => CInf b
  | None => CNull
  end.

(** [pd.to_numeric(errors="coerce")] on one cell: numbers are kept,
    strings are converted, NaN stays NaN. *)
Definition to_numeric_coerce (v : cell) : cell :=
  match v with
  | CStr s => convert_numeric_str s
  | _ => v
  end.

(** [.fillna(0)] on one cell. *)
Definition fillna0 (v : cell) : cell :=
  match v with CNull => CNum 0 | _ => v end.

Definition clean_total_charges (df : frame) : frame :=
  assign_col TotalCharges (fun v => fillna0 (to_numeric_coerce v)) df.

(** Steps 2-4 of the script, in order. *)
Definition normalize (df : frame) : frame :=
  clean_total_charges (clean_replace (clean_bool df)).

(** ** Row-wise reading of the normalizer *)

(** What steps 2-4 do to the cell of one column. *)
Definition norm_cell (c : column) (v : cell) : cell :=
  match c with
  | Partner | Dependents | PhoneService | PaperlessBilling | SeniorCitizen =>
      yes_no_map v
  | MultipleLines | OnlineSecurity | OnlineBackup | DeviceProtection
  | TechSupport | StreamingTV | StreamingMovies => no_service_replace v
  | TotalCharges => fillna0 (to_numeric_coerce v)
  | _ => v
  end.

(** The five boolean-coded fields (the loop of line 15 and line 19). *)
Definition bool_fields : list column := SeniorCitizen :: bool_cols.

Definition norm_row (r : row) : row :=
  update_col TotalCharges (fun v => fillna0 (to_numeric_coerce v))
    (fold_left (fun r' col => update_col col no_service_replace r') replace_cols
       (update_col SeniorCitizen yes_no_map
          (fold_left (fun r' col => update_col col yes_no_map r') bool_cols r))).

(** ** Step 5: the four tables *)

(** A table row after the split: column name and cell, in column order. *)
Definition trow := list (string * cell).

Record table : Type := mkTable { tcols : list string; trows : list trow }.

(** [row[name]] on a table row; a name that is absent reads as NaN. *)
Definition lookup (name : string) (x : trow) : cell :=
  match find (fun p => String.eqb (fst p) name) x with
  | Some (_, v) => v
  | None => CNull
  end.

(** [df[[c1, ..., cn]].copy()] followed by [rename(columns = ..)]: the pairs
    give each selected source column with its name after the rename. *)
Definition select_rename (m : list (column * string)) (df : frame) : table :=
  mkTable (map snd m) (map (fun r => map (fun p => (snd p, r (fst p))) m) df).

Definition customers_cols : list (column * string) :=
  [(customerID, "customer_id"); (gender, "gender");
   (SeniorCitizen, "senior_citizen"); (Partner, "partner");
   (Dependents, "dependents"); (tenure, "tenure")].

Definition services_cols : list (column * string) :=
  [(customerID, "customer_id"); (PhoneService, "phone_service");
   (MultipleLines, "multiple_lines"); (InternetService, "internet_service");
   (OnlineSecurity, "online_security"); (OnlineBackup, "online_backup");
   (DeviceProtection, "device_protection"); (TechSupport, "tech_support");
   (StreamingTV, "streaming_tv"); (StreamingMovies, "streaming_movies")].

Definition billing_cols : list (column * string) :=
  [(customerID, "customer_id"); (Contract, "contract");
   (PaperlessBilling, "paperless_billing"); (PaymentMethod, "payment_method");
   (MonthlyCharges, "monthly_charges"); (TotalCharges, "total_charges")].

Definition churn_cols : list (column * string) :=
  [(customerID, "customer_id"); (Churn, "churn_status")].

Definition customers_df (df : frame) : table :=
  select_rename customers_cols (normalize df).

Definition services_df (df : frame) : table :=
  select_rename services_cols (normalize df).

Definition billing_df (df : frame) : table :=
  select_rename billing_cols (normalize df).

(** Line 86: [churn_df["churn_date"] = None]. *)
Definition churn_df (df : frame) : table :=
  let t := select_rename churn_cols (normalize df) in
  mkTable (tcols t ++ ["churn_date"])
          (map (fun x => x ++ [("churn_date", CNull)]) (trows t)).

(** ** [load_data] of [app.py]: the left-merge chain on [customer_id] *)

Definition key : string := "customer_id".

(** [l.merge(r, on="customer_id", how="left")]: every left row is paired
    with each right row of the same key, in order; a left row without a
    match is kept once, with NaN in the right-hand columns. *)
Definition merge_left (l r : table) : table :=
  let rcols := filter (fun c => negb (String.eqb c key)) (tcols r) in
  let strip (y : trow) := filter (fun p => negb (String.eqb (fst p) key)) y in
  mkTable (tcols l ++ rcols)
    (flat_map
       (fun x =>
          match filter (fun y => cell_eqb (lookup key y) (lookup key x)) (trows r) with
          | [] => [x ++ map (fun c => (c, CNull)) rcols]
          | ms => map (fun y => x ++ strip y) ms
          end)
       (trows l)).

(** The joined view built from the four tables. *)
Definition load_data (customers services billing churn : table) : table :=
  merge_left (merge_left (merge_left customers services) billing) churn.

(** The joined view of the four tables split from one input file. *)
Definition joined_view (df : frame) : table :=
  load_data (customers_df df) (services_df df) (billing_df df) (churn_df df).

(** [distinct_cells ks]: no two entries of [ks] match as merge keys. *)
Fixpoint distinct_cells (ks : list cell) : bool :=
  match ks with
  | [] => true
  | k :: ks' => forallb (fun k' => negb (cell_eqb k k')) ks' && distinct_cells ks'
  end.

(** [key_count ks k]: the entries of [ks] that match [k] as a merge key. *)
Definition key_count (ks : list cell) (k : cell) : nat :=
  List.length (filter (fun k' => cell_eqb k' k) ks).

(** ** The sidebar filters and [df_filtered] of [app.py] *)

Definition view := list trow.

(** The values of the sidebar form (lines 43-80). *)
Record filter_spec : Type := mkFilterSpec {
  gender_filter : list string;
  contract_filter : list string;
  churn_filter : list string;
  tenure_filter : Z * Z;
  revenue_filter : Q * Q;
  high_risk_toggle : bool
}.

(** [Series.isin(values)] for a list of strings: a missing value, or a
    value that is not a string, is never a member. *)
Definition isin (v : cell) (sel : list string) : bool :=
  match v with
  | CStr s => existsb (String.eqb s) sel
  | _ => false
  end.

(** The numeric value of a cell; [None] for NaN and for text.  An infinite
    value never reaches the dashboard: the MySQL driver refuses to write
    inf, so [to_sql] raises before such a row is stored. *)
Definition cell_num (v : cell) : option Q :=
  match v with
  | CInt z => Some (inject_Z z)
  | CNum q => Some q
  | _ => None
  end.

(** [Series.between(lo, hi)], inclusive on both ends; NaN is outside. *)
Definition between (v : cell) (lo hi : Q) : bool :=
  match cell_num v with
  | Some x => Qle_bool lo x && Qle_bool x hi
  | None => false
  end.

(** [v < b] and [v > b] on a numeric cell; false on NaN. *)
Definition cell_lt (v : cell) (b : Q) : bool :=
  match cell_num v with Some x => negb (Qle_bool b x) | None => false end.

Definition cell_gt (v : cell) (b : Q) : bool :=
  match cell_num v with Some x => negb (Qle_bool x b) | None => false end.

(** [v == "Yes"]. *)
Definition is_yes (v : cell) : bool := cell_eqb v (CStr "Yes").

(** Lines 94-105. *)
Definition df_filtered (fs : filter_spec) (df : view) : view :=
  let base :=
    filter (fun x =>
      isin (lookup "gender" x) (gender_filter fs) &&
      isin (lookup "contract" x) (contract_filter fs) &&
      isin (lookup "churn_status" x) (churn_filter fs) &&
      between (lookup "tenure" x) (inject_Z (fst (tenure_filter fs)))
                                  (inject_Z (snd (tenure_filter fs))) &&
      between (lookup "monthly_charges" x) (fst (revenue_filter fs))
                                           (snd (revenue_filter fs))) df in
  if high_risk_toggle fs
  then filter (fun x => cell_lt (lookup "tenure" x) 6 &&
                        is_yes (lookup "churn_status" x)) base
  else base.

(** [Series.dropna().unique()] on a text column: distinct strings in
    order of first appearance. *)
Fixpoint unique_strings (seen : list string) (l : list string) : list string :=
  match l with
  | [] => []
  | s :: l' =>
      if existsb (String.eqb s) seen then unique_strings seen l'
      else s :: unique_strings (s :: seen) l'
  end.

Definition observed (name : string) (df : view) : list string :=
  unique_strings []
    (flat_map (fun x => match lookup name x with CStr s => [s] | _ => [] end) df).

(** ** The aggregates of the Executive Summary (lines 110-134) *)

(** [Series.nunique()]: distinct values, NaN not counted. *)
Fixpoint dedup_cells (l : list cell) : list cell :=
  match l with
  | [] => []
  | x :: l' => if existsb (cell_eqb x) l' then dedup_cells l' else x :: dedup_cells l'
  end.

Definition nunique (l : list cell) : nat :=
  List.length (dedup_cells (filter (fun v => negb (cell_eqb v CNull)) l)).

Definition column_of (name : string) (df : view) : list cell :=
  map (lookup name) df.

(** The non-missing numeric values of a column. *)
Definition numbers (l : list cell) : list Q :=
  flat_map (fun v => match cell_num v with Some q => [q] | None => [] end) l.

Definition sumQ (l : list Q) : Q := fold_right Qplus 0 l.

(** [Series.sum()]: NaN skipped, [0] on no values. *)
Definition series_sum (l : list cell) : Q := sumQ (numbers l).

(** [Series.mean()]: NaN skipped, NaN ([None]) on no values. *)
Definition series_mean (l : list cell) : option Q :=
  match numbers l with
  | [] => None
  | qs => Some (sumQ qs / inject_Z (Z.of_nat (List.length qs)))
  end.

Fixpoint insertQ (q : Q) (l : list Q) : list Q :=
  match l with
  | [] => [q]
  | p :: l' => if Qle_bool q p then q :: p :: l' else p :: insertQ q l'
  end.

Definition sortQ (l : list Q) : list Q := fold_right insertQ [] l.

(** [Series.median()]: NaN skipped; the middle value, or the mean of the two
    middle values for an even count; NaN ([None]) on no values. *)
Definition series_median (l : list cell) : option Q :=
  let s := sortQ (numbers l) in
  let n := List.length s in
  match n with
  | O => None
  | _ =>
      if Nat.even n
      then Some ((nth (n / 2 - 1) s 0 + nth (n / 2) s 0) / 2)
      else Some (nth (n / 2) s 0)
  end.

(** [v > m] with [m] possibly NaN: false against NaN. *)
Definition gt_opt (v : cell) (m : option Q) : bool :=
  match m with Some b => cell_gt v b | None => false end.

Definition count (p : trow -> bool) (df : view) : nat := List.length (filter p df).

(** Evaluation that may raise: [None] is an exception escaping. *)
Definition raises {A : Type} : option A := None.

Definition bind {A B : Type} (m : option A) (f : A -> option B) : option B :=
  match m with Some a => f a | None => None end.

Notation "x <- m ;; k" := (bind m (fun x => k)) (at level 61, m at next level, right associativity).

(** Python [a / b]: raises on a zero divisor. *)
Definition py_div (a b : Q) : option Q :=
  if Qeq_bool b 0 then raises else Some (a / b).

Definition Qnat (n : nat) : Q := inject_Z (Z.of_nat n).

(** [(k / total * 100) if total > 0 else 0]. *)
Definition guarded_pct (k total : nat) : option Q :=
  if (0 <? total)%nat
  then (p <- py_div (Qnat k) (Qnat total) ;; Some (p * 100))
  else Some 0.

Record summary : Type := mkSummary {
  total_customers : nat;
  churned_customers : nat;
  churn_rate : Q;
  revenue_at_risk : Q;
  high_risk_count : nat;
  avg_tenure : option Q;
  premium_count : nat;
  loyal_count : nat;
  high_risk_pct : Q;
  premium_pct : Q;
  loyal_pct : Q
}.

(** Lines 110-117 and the deltas of lines 126-133: [df] is the unfiltered
    view, [fv] the filtered one. *)
Definition summarize (df fv : view) : option summary :=
  let total := nunique (column_of "customer_id" fv) in
  let churned := count (fun x => is_yes (lookup "churn_status" x)) fv in
  churn_rate <- guarded_pct churned total ;;
  let revenue := series_sum (column_of "monthly_charges"
                   (filter (fun x => is_yes (lookup "churn_status" x)) fv)) * 12 in
  let high_risk := count (fun x => cell_lt (lookup "tenure" x) 3 &&
                                   is_yes (lookup "churn_status" x)) fv in
  let avg := series_mean (column_of "tenure" fv) in
  let premium := count (fun x => gt_opt (lookup "monthly_charges" x)
                          (series_median (column_of "monthly_charges" df))) fv in
  let loyal := count (fun x => cell_gt (lookup "tenure" x) 24) fv in
  hr_pct <- guarded_pct high_risk total ;;
  pr_pct <- guarded_pct premium total ;;
  lo_pct <- guarded_pct loyal total ;;
  Some (mkSummary total churned churn_rate revenue high_risk avg premium loyal
                  hr_pct pr_pct lo_pct).

(** The block run on the form values: filter, then summarize. *)
Definition executive_summary (fs : filter_spec) (df : view) : option summary :=
  summarize df (df_filtered fs df).

(** What a metric tile shows. *)
Inductive tile : Type :=
| TNumber (q : Q) (suffix : string)
| TText (s : string).

(** Line 121. *)
Definition avg_tenure_tile (avg : option Q) : tile :=
  match avg with Some q => TNumber q " months" | None => TText "N/A" end.

(** Line 123. *)
Definition churn_rate_tile (s : summary) : tile :=
  if (0 <? total_customers s)%nat then TNumber (churn_rate s) "%" else TText "0%".

(** ** Normalized form and sample input rows *)

Definition is_sentinel (v : cell) : bool :=
  cell_eqb v (CStr "No phone service") || cell_eqb v (CStr "No internet service").

Definition is_number (v : cell) : bool :=
  match v with CInt _ | CNum _ | CInf _ => true | _ => false end.

(** A row in the form produced by steps 2-4: boolean fields coded 0/1,
    no sentinel in the collapse list, [TotalCharges] numeric. *)
Definition normalized_row (r : row) : bool :=
  forallb (fun c => cell_eqb (r c) (CInt 0) || cell_eqb (r c) (CInt 1)) bool_fields &&
  forallb (fun c => negb (is_sentinel (r c))) replace_cols &&
  is_number (r TotalCharges).

(** A raw row of the cleaned CSV, with chosen [customerID], [Partner] and
    [TotalCharges]. *)
Definition example_raw (id : string) (partner tc : cell) : row :=
  fun c =>
    match c with
    | customerID => CStr id
    | gender => CStr "Female"
    | SeniorCitizen => CStr "No"
    | Partner => partner
    | Dependents => CStr "No"
    | tenure => CInt 0
    | PhoneService => CStr "No"
    | MultipleLines => CStr "No phone service"
    | InternetService => CStr "DSL"
    | Contract => CStr "Month-to-month"
    | PaperlessBilling => CStr "Yes"
    | PaymentMethod => CStr "Electronic check"
    | MonthlyCharges => CNum 20
    | TotalCharges => tc
    | Churn => CStr "No"
    | OnlineSecurity | OnlineBackup | DeviceProtection | TechSupport
    | StreamingTV | StreamingMovies => CStr "No"
    end.

(** ** The filter of section 4.4, read from the spec's words *)

Inductive cat_field : Type := FGender | FContract | FChurn.

Definition cat_field_eqb (f g : cat_field) : bool :=
  match f, g with
  | FGender, FGender | FContract, FContract | FChurn, FChurn => true
  | _, _ => false
  end.

Definition cat_name (f : cat_field) : string :=
  match f with
  | FGender => "gender"
  | FContract => "contract"
  | FChurn => "churn_status"
  end.

Definition cat_sel (fs : filter_spec) (f : cat_field) : list string :=
  match f with
  | FGender => gender_filter fs
  | FContract => contract_filter fs
  | FChurn => churn_filter fs
  end.

(** The value is one of the allowed values. *)
Definition allowed (v : cell) (sel : list string) : bool :=
  match v with
  | CStr s => if in_dec string_dec s sel then true else false
  | _ => false
  end.

(** The value lies in the inclusive range [[lo, hi]]. *)
Definition in_range (v : cell) (lo hi : Q) : bool :=
  match cell_num v with
  | Some t => Qle_bool lo t && Qle_bool t hi
  | None => false
  end.

(** Set membership on the categorical filters (all of them, or all but
    [skip]), range membership on tenure and monthly_charges, and the
    high-risk predicate when the toggle is on. *)
Definition spec_keep (fs : filter_spec) (skip : option cat_field) (x : trow) : bool :=
  forallb (fun f =>
             match skip with
             | Some g => cat_field_eqb f g
             | None => false
             end || allowed (lookup (cat_name f) x) (cat_sel fs f))
          [FGender; FContract; FChurn] &&
  in_range (lookup "tenure" x) (inject_Z (fst (tenure_filter fs)))
           (inject_Z (snd (tenure_filter fs))) &&
  in_range (lookup "monthly_charges" x) (fst (revenue_filter fs))
           (snd (revenue_filter fs)) &&
  (negb (high_risk_toggle fs) ||
   (cell_lt (lookup "tenure" x) 6 && cell_eqb (lookup "churn_status" x) (CStr "Yes"))).

Definition is_str (v : cell) : bool := match v with CStr _ => true | _ => false end.

(** A joined view where customer "C2" has no churn_outcomes row: the
    merge fills its [churn_status] with NaN. *)
Definition view_missing_churn : view :=
  let df := [example_raw "C1" (CStr "Yes") (CStr "1");
             example_raw "C2" (CStr "No") (CStr "2")] in
  trows (load_data (customers_df df) (services_df df) (billing_df df)
                   (churn_df [example_raw "C1" (CStr "Yes") (CStr "1")])).

(** [Series.max()]: NaN skipped, NaN ([None]) on no values. *)
Definition series_max (l : list cell) : option Q :=
  match numbers l with
  | [] => None
  | q :: qs => Some (fold_left (fun m p => if Qle_bool m p then p else m) qs q)
  end.

(** The form's default values on a view (lines 44-78): every observed
    category selected, tenure from 0 to [int(max)], monthly charges from 0
    to the maximum, toggle off.  [int(NaN)] raises on an empty column. *)
Definition default_spec (df : view) : option filter_spec :=
  tmax <- series_max (column_of "tenure" df) ;;
  mmax <- series_max (column_of "monthly_charges" df) ;;
  Some (mkFilterSpec (observed "gender" df) (observed "contract" df)
                     (observed "churn_status" df) (0, Z.quot (Qnum tmax) (Zpos (Qden tmax)))%Z (0, mmax) false).

(** A view of ten customers "C0".."C9", three of them churned with
    monthly charges 50, 60 and 70. *)
Definition kpi_view_row (id : string) (churn : string) (mc : Q) : trow :=
  [("customer_id", CStr id); ("gender", CStr "Male"); ("tenure", CInt 12);
   ("contract", CStr "Month-to-month"); ("monthly_charges", CNum mc);
   ("churn_status", CStr churn)].

Definition kpi_view : view :=
  [kpi_view_row "C0" "Yes" 50; kpi_view_row "C1" "Yes" 60;
   kpi_view_row "C2" "Yes" 70; kpi_view_row "C3" "No" 20;
   kpi_view_row "C4" "No" 20; kpi_view_row "C5" "No" 20;
   kpi_view_row "C6" "No" 20; kpi_view_row "C7" "No" 20;
   kpi_view_row "C8" "No" 20; kpi_view_row "C9" "No" 20].



(** A table row that carries a [customer_id] column. *)
Definition has_key (x : trow) : bool :=
  match find (fun p => String.eqb (fst p) key) x with Some _ => true | None => false end.

(** ** The loader (lines 102-112): [to_sql(.., if_exists="append")] *)

(** The four stored tables. *)
Record store : Type := mkStore {
  db_customers : table;
  db_services : table;
  db_billing : table;
  db_churn_outcomes : table
}.

(** Appending the rows of a data frame to a stored table. *)
Definition append_rows (stored new : table) : table :=
  mkTable (tcols stored) (trows stored ++ trows new).

(** One run of the script on the CSV contents [df]: the four appends. *)
Definition load_pass (db : store) (df : frame) : store :=
  mkStore (append_rows (db_customers db) (customers_df df))
          (append_rows (db_services db) (services_df df))
          (append_rows (db_billing db) (billing_df df))
          (append_rows (db_churn_outcomes db) (churn_df df)).

(** The four tables before the first run: their columns and no rows. *)
Definition empty_store : store :=
  mkStore (mkTable (map snd customers_cols) [])
          (mkTable (map snd services_cols) [])
          (mkTable (map snd billing_cols) [])
          (mkTable (map snd churn_cols ++ ["churn_date"]) []).

(** [load_data] reading the four stored tables back. *)
Definition dashboard_view (db : store) : table :=
  load_data (db_customers db) (db_services db) (db_billing db) (db_churn_outcomes db).

(** One row of [select_rename m]. *)
Definition select_row (m : list (column * string)) (r : row) : trow :=
  map (fun p => (snd p, r (fst p))) m.

(** The right-hand columns a merge adds: all but [customer_id]. *)
Definition strip_key (y : trow) : trow :=
  filter (fun p => negb (String.eqb (fst p) key)) y.

(** The joined row of one normalized input row. *)
Definition joined_row (r : row) : trow :=
  ((select_row customers_cols r ++ strip_key (select_row services_cols r)) ++
   strip_key (select_row billing_cols r)) ++
  strip_key (select_row churn_cols r ++ [("churn_date", CNull)]).

(** [fs1] selects within [fs2]: smaller allowed sets, narrower ranges,
    and the high-risk toggle on whenever it is on in [fs2]. *)
Definition spec_within (fs1 fs2 : filter_spec) : Prop :=
  incl (gender_filter fs1) (gender_filter fs2) /\
  incl (contract_filter fs1) (contract_filter fs2) /\
  incl (churn_filter fs1) (churn_filter fs2) /\
  (fst (tenure_filter fs2) <= fst (tenure_filter fs1))%Z /\
  (snd (tenure_filter fs1) <= snd (tenure_filter fs2))%Z /\
  fst (revenue_filter fs2) <= fst (revenue_filter fs1) /\
  snd (revenue_filter fs1) <= snd (revenue_filter fs2) /\
  (high_risk_toggle fs2 = true -> high_risk_toggle fs1 = true).

(** ** The charts of the Revenue Impact and CLV tabs (lines 172-197) *)

(** [groupby(name)] drops the rows whose key is missing and lists the
    groups in sorted key order. *)
Fixpoint insert_str (s : string) (l : list string) : list string :=
  match l with
  | [] => [s]
  | t :: l' => if String.leb s t then s :: l else t :: insert_str s l'
  end.

Definition sort_strings (l : list string) : list string := fold_right insert_str [] l.

Definition group_keys (name : string) (df : view) : list string :=
  sort_strings (observed name df).

Definition group (name k : string) (df : view) : view :=
  filter (fun x => cell_eqb (lookup name x) (CStr k)) df.

(** Line 172: [groupby('churn_status')['monthly_charges'].sum()]. *)
Definition df_funnel (fv : view) : list (string * Q) :=
  map (fun k => (k, series_sum (column_of "monthly_charges" (group "churn_status" k fv))))
      (group_keys "churn_status" fv).

Record rev_row : Type := mkRevRow {
  rev_contract : string;
  total_revenue : Q;
  churned_revenue : Q
}.

(** Lines 177-180; the lambda selects the group's monthly charges where the
    (index-aligned) churn status is "Yes". *)
Definition df_rev (fv : view) : list rev_row :=
  map (fun k =>
         let g := group "contract" k fv in
         mkRevRow k (series_sum (column_of "monthly_charges" g))
                    (series_sum (column_of "monthly_charges"
                       (filter (fun x => is_yes (lookup "churn_status" x)) g))))
      (group_keys "contract" fv).

Record clv_row : Type := mkClvRow {
  clv_contract : string;
  avg_clv : option Q;
  customers : nat;
  churned : nat
}.

(** Lines 188-192: [count] counts the non-missing customer ids. *)
Definition df_clv (fv : view) : list clv_row :=
  map (fun k =>
         let g := group "contract" k fv in
         mkClvRow k (series_mean (column_of "total_charges" g))
                  (count (fun x => negb (cell_eqb (lookup "customer_id" x) CNull)) g)
                  (count (fun x => is_yes (lookup "churn_status" x)) g))
      (group_keys "contract" fv).

(** ** The rerun logic of line 91 *)

(** One run of the script: [filters_applied] is the session entry (absent
    before the first run), [apply_filters] the submit button.  Returns
    whether the dashboard is rendered and the new session entry. *)
Definition rerun (filters_applied : option bool) (apply_filters : bool)
  : bool * option bool :=
  if apply_filters || negb (match filters_applied with Some b => b | None => false end)
  then (true, Some true)
  else (false, filters_applied).

(** A session: the runs in order, with the button state of each. *)
Fixpoint session (filters_applied : option bool) (presses : list bool) : list bool :=
  match presses with
  | [] => []
  | p :: ps =>
      let (shown, st) := rerun filters_applied p in shown :: session st ps
  end.

(** ** [get_mysql_connection] (utils/connection_utils.py) *)

(** An f-string renders a missing [dict.get] value as "None". *)
Definition py_str (v : option string) : string :=
  match v with Some s => s | None => "None" end.

(** [os.getenv(name, default)]. *)
Definition getenv (env : string -> option string) (name default : string) : string :=
  match env name with Some s => s | None => default end.

(** Line 28. *)
Definition connection_url (user password host port database : string) : string :=
  "mysql+pymysql://" ++ user ++ ":" ++ password ++ "@" ++ host ++ ":" ++ port ++ "/"
  ++ database.

(** Lines 10-28: [secrets] is the [mysql] section of the Streamlit secrets
    when there is one; [env] the environment after [load_dotenv()]. *)
Definition mysql_url (secrets : option (string -> option string))
    (env : string -> option string) : string :=
  match secrets with
  | Some db_config =>
      connection_url (py_str (db_config "user")) (py_str (db_config "password"))
                     (py_str (db_config "host")) (py_str (db_config "port"))
                     (py_str (db_config "database"))
  | None =>
      connection_url (getenv env "MYSQL_USER" "root") (getenv env "MYSQL_PASSWORD" EmptyString)
                     (getenv env "MYSQL_HOST" "localhost") (getenv env "MYSQL_PORT" "3306")
                     (getenv env "MYSQL_DATABASE" "customer_churn")
  end.

(** Lines 30-35: [connect] is [create_engine(url).connect()], [None] when it
    raises; the exception is reported and [None] returned. *)
Definition get_mysql_connection {Conn : Type} (connect : string -> option Conn)
    (secrets : option (string -> option string)) (env : string -> option string)
  : option Conn :=
  connect (mysql_url secrets env).

(** * Proofs *)

Lemma column_eqb_spec (a b : column) : column_eqb a b = true <-> a = b.
Proof. destruct a, b; simpl; split; congruence. Qed.

Lemma fold_assign_col (cols : list column) (f : cell -> cell) (df : frame) :
  fold_left (fun d col => assign_col col f d) cols df
  = map (fun r => fold_left (fun r' col => update_col col f r') cols r) df.
Proof.
  revert df; induction cols as [|col cols IH]; intros df; simpl.
  - symmetry; apply map_id.
  - rewrite IH; unfold assign_col; rewrite map_map; reflexivity.
Qed.

Lemma normalize_map (df : frame) : normalize df = map norm_row df.
Proof.
  unfold normalize, clean_total_charges, clean_replace, clean_bool.
  rewrite !fold_assign_col; unfold assign_col; rewrite !map_map; reflexivity.
Qed.

Lemma norm_row_cell (r : row) (c : column) : norm_row r c = norm_cell c (r c).
Proof. destruct c; reflexivity. Qed.

Lemma normalize_nth (df : frame) (i : nat) (r : row) :
  nth_error df i = Some r ->
  exists r', nth_error (normalize df) i = Some r' /\
             forall c, r' c = norm_cell c (r c).
Proof.
  intros H; exists (norm_row r); split.
  - rewrite normalize_map, nth_error_map, H; reflexivity.
  - apply norm_row_cell.
Qed.

Lemma normalize_length (df : frame) : List.length (normalize df) = List.length df.
Proof. rewrite normalize_map; apply length_map. Qed.

Lemma yes_no_map_cases (v : cell) :
  (v = CStr "Yes" -> yes_no_map v = CInt 1) /\
  (v = CStr "No" -> yes_no_map v = CInt 0) /\
  (v <> CStr "Yes" -> v <> CStr "No" -> yes_no_map v = CNull).
Proof.
  repeat split; intros; subst; try reflexivity.
  destruct v as [s| | | |]; try reflexivity; simpl.
  destruct (String.eqb_spec s "Yes"); [subst; congruence|].
  destruct (String.eqb_spec s "No"); [subst; congruence|].
  reflexivity.
Qed.

Lemma normalize_Forall2 (df : frame) :
  Forall2 (fun r r' => forall c, r' c = norm_cell c (r c)) df (normalize df).
Proof.
  rewrite normalize_map; induction df as [|r df IH]; simpl; constructor.
  - apply norm_row_cell.
  - exact IH.
Qed.

Lemma no_service_replace_cases (v : cell) :
  (v = CStr "No phone service" -> no_service_replace v = CStr "No") /\
  (v = CStr "No internet service" -> no_service_replace v = CStr "No") /\
  (v <> CStr "No phone service" -> v <> CStr "No internet service" ->
   no_service_replace v = v).
Proof.
  repeat split; intros; subst; try reflexivity.
  destruct v as [s| | | |]; try reflexivity; simpl.
  destruct (String.eqb_spec s "No phone service"); [subst; congruence|].
  destruct (String.eqb_spec s "No internet service"); [subst; congruence|].
  reflexivity.
Qed.

Lemma no_service_replace_not_sentinel (v : cell) :
  no_service_replace v <> CStr "No phone service" /\
  no_service_replace v <> CStr "No internet service".
Proof.
  destruct v as [s| | | |]; simpl; try (split; discriminate).
  destruct (String.eqb_spec s "No phone service"); [split; discriminate|].
  destruct (String.eqb_spec s "No internet service"); [split; discriminate|].
  split; congruence.
Qed.


Lemma cell_eqb_refl (v : cell) : cell_eqb v v = true.
Proof.
  destruct v; simpl.
  - apply String.eqb_refl.
  - apply Z.eqb_refl.
  - apply Qeq_bool_refl.
  - apply Bool.eqb_reflx.
  - reflexivity.
Qed.

Lemma cell_eqb_sym (a b : cell) : cell_eqb a b = cell_eqb b a.
Proof.
  destruct a, b; simpl; try reflexivity.
  - apply String.eqb_sym.
  - apply Z.eqb_sym.
  - apply Qeq_bool_comm.
  - destruct neg, neg0; reflexivity.
Qed.

Lemma cell_eqb_str (v : cell) (s : string) : cell_eqb v (CStr s) = true -> v = CStr s.
Proof.
  destruct v; simpl; try discriminate.
  intros H; apply String.eqb_eq in H; subst; reflexivity.
Qed.

Lemma cell_eqb_int (v : cell) (z : Z) : cell_eqb v (CInt z) = true -> v = CInt z.
Proof.
  destruct v; simpl; try discriminate.
  intros H; apply Z.eqb_eq in H; subst; reflexivity.
Qed.

(** ** C1: the boolean remap *)

(** C1 (counterexample): a [Partner] value other than "Yes"/"No" does not
    stop the load pass; the normalized frame is produced and holds NaN in
    that field, a value outside {0, 1}. *)
Lemma C1_other_value_becomes_null :
  exists r', normalize [example_raw "C1" (CStr "Maybe") (CStr "1")] = [r'] /\
             r' Partner = CNull.
Proof. eexists; split; reflexivity. Qed.

(** C1 (amended): in each of partner, dependents, phone_service,
    paperless_billing and senior_citizen, "Yes" becomes 1, "No" becomes 0
    and every other value becomes NaN; the pass raises nothing and keeps
    one output row per input row. *)
Theorem C1_bool_remap (df : frame) :
  Forall2 (fun r r' =>
    forall c, In c bool_fields ->
      (r c = CStr "Yes" -> r' c = CInt 1) /\
      (r c = CStr "No" -> r' c = CInt 0) /\
      (r c <> CStr "Yes" -> r c <> CStr "No" -> r' c = CNull))
    df (normalize df).
Proof.
  eapply Forall2_impl; [|apply normalize_Forall2].
  intros r r' Hc c Hin; rewrite Hc.
  simpl in Hin; repeat destruct Hin as [<-|Hin]; try contradiction;
    apply yes_no_map_cases.
Qed.

(** ** C8: the category collapse *)

(** C8: in every field of the collapse list, "No phone service" and
    "No internet service" become "No", every other value is kept, and
    neither sentinel is left after normalization. *)
Theorem C8_category_collapse (df : frame) :
  Forall2 (fun r r' =>
    forall c, In c replace_cols ->
      (r c = CStr "No phone service" -> r' c = CStr "No") /\
      (r c = CStr "No internet service" -> r' c = CStr "No") /\
      (r c <> CStr "No phone service" -> r c <> CStr "No internet service" ->
       r' c = r c) /\
      r' c <> CStr "No phone service" /\
      r' c <> CStr "No internet service")
    df (normalize df).
Proof.
  eapply Forall2_impl; [|apply normalize_Forall2].
  intros r r' Hc c Hin; rewrite Hc.
  simpl in Hin; repeat destruct Hin as [<-|Hin]; try contradiction;
    simpl; (split; [apply no_service_replace_cases|];
            split; [apply no_service_replace_cases|];
            split; [apply no_service_replace_cases|];
            apply no_service_replace_not_sentinel).
Qed.

(** ** C7: the numeric coercion of [TotalCharges] *)



(** ** C2: normalizing an already normalized frame *)

Lemma normalized_row_cells (r : row) :
  normalized_row r = true ->
  (forall c, In c bool_fields -> r c = CInt 0 \/ r c = CInt 1) /\
  (forall c, In c replace_cols -> is_sentinel (r c) = false) /\
  is_number (r TotalCharges) = true.
Proof.
  unfold normalized_row; intros H.
  apply andb_true_iff in H as [H Hn]; apply andb_true_iff in H as [Hb Hr].
  rewrite forallb_forall in Hb, Hr.
  split; [|split; [|exact Hn]].
  - intros c Hc; specialize (Hb c Hc).
    apply orb_true_iff in Hb as [Hb|Hb]; [left|right]; auto using cell_eqb_int.
  - intros c Hc; specialize (Hr c Hc); apply negb_true_iff in Hr; exact Hr.
Qed.

Lemma no_service_replace_id (v : cell) :
  is_sentinel v = false -> no_service_replace v = v.
Proof.
  intros H; apply no_service_replace_cases; intros ->; discriminate H.
Qed.

Lemma total_charges_id (v : cell) :
  is_number v = true -> fillna0 (to_numeric_coerce v) = v.
Proof. destruct v; simpl; intros H; try discriminate H; reflexivity. Qed.

(** C2 (counterexample): a row in normalized form (its [Partner] is 1) is
    not a fixed point: the boolean remap turns the 1 into NaN. *)
Lemma C2_remap_not_idempotent :
  let r := norm_row (example_raw "C1" (CStr "Yes") (CStr "1")) in
  normalized_row r = true /\
  exists r', normalize [r] = [r'] /\ r Partner = CInt 1 /\ r' Partner = CNull.
Proof.
  simpl; split; [vm_compute; reflexivity|].
  eexists; split; [reflexivity|split; reflexivity].
Qed.

(** C2 (amended): on a frame in normalized form, the category collapse and
    the numeric coercion change nothing, every field outside the five
    boolean fields is left as it was, and the boolean remap turns each of
    the five boolean fields into NaN. *)
Theorem C2_renormalize (df : frame) :
  forallb normalized_row df = true ->
  Forall2 (fun r r' =>
    (forall c, ~ In c bool_fields -> r' c = r c) /\
    (forall c, In c bool_fields -> r' c = CNull))
    df (normalize df).
Proof.
  intros Hall; rewrite forallb_forall in Hall.
  pose proof (normalize_Forall2 df) as H2.
  induction H2 as [|r r' df df' Hc H2 IH]; constructor.
  - destruct (normalized_row_cells r (Hall r (or_introl eq_refl)))
      as (Hb & Hr & Hn).
    split.
    + intros c Hnot; rewrite Hc.
      destruct c; simpl in Hnot |- *; try reflexivity;
        try (exfalso; apply Hnot; simpl; tauto);
        try (apply no_service_replace_id, Hr; simpl; tauto).
      apply total_charges_id, Hn.
    + intros c Hin; rewrite Hc.
      simpl in Hin; repeat destruct Hin as [<-|Hin]; try contradiction;
        match goal with
        | |- norm_cell ?c (r ?c) = CNull =>
            destruct (Hb c) as [E|E]; [simpl; tauto| |]; simpl; rewrite E; reflexivity
        end.
  - apply IH; intros x Hx; apply Hall; right; exact Hx.
Qed.

(** Witness of C2: the normalized two-row frame built from sample input. *)
Lemma C2_renormalize_witness :
  let df := normalize [example_raw "C1" (CStr "Yes") (CStr "29.85");
                       example_raw "C2" (CStr "No") (CStr " ")] in
  forallb normalized_row df = true /\
  Forall2 (fun r r' =>
    (forall c, ~ In c bool_fields -> r' c = r c) /\
    (forall c, In c bool_fields -> r' c = CNull))
    df (normalize df).
Proof.
  intros df; split; [vm_compute; reflexivity|].
  apply (C2_renormalize df); vm_compute; reflexivity.
Defined.

(** ** C3: the left-merge chain over the split tables *)

Lemma find_app {A : Type} (p : A -> bool) (x y : list A) :
  find p (x ++ y) = match find p x with Some a => Some a | None => find p y end.
Proof.
  induction x as [|a x IH]; simpl; [reflexivity|].
  destruct (p a); [reflexivity|exact IH].
Qed.

Lemma lookup_key_app (x y : trow) :
  has_key x = true -> lookup key (x ++ y) = lookup key x /\ has_key (x ++ y) = true.
Proof.
  unfold has_key, lookup; rewrite find_app.
  destruct (find _ x) as [[c v]|]; [split; reflexivity|discriminate].
Qed.

Lemma filter_all_false {A : Type} (p : A -> bool) (l : list A) :
  (forall y, In y l -> p y = false) -> filter p l = [].
Proof.
  induction l as [|a l IH]; simpl; intros H; [reflexivity|].
  rewrite (H a (or_introl eq_refl)); apply IH; intros y Hy; apply H; right; exact Hy.
Qed.

Lemma distinct_one (ks : list cell) (k : cell) :
  distinct_cells ks = true -> In k ks ->
  List.length (filter (fun k' => cell_eqb k' k) ks) = 1%nat.
Proof.
  induction ks as [|a ks IH]; simpl; [contradiction|].
  intros Hd Hin; apply andb_true_iff in Hd as [Ha Hd].
  rewrite forallb_forall in Ha.
  destruct Hin as [<-|Hin].
  - rewrite cell_eqb_refl; simpl; f_equal.
    assert (Hz : filter (fun k' => cell_eqb k' a) ks = []).
    { apply filter_all_false; intros y Hy.
      specialize (Ha y Hy); apply negb_true_iff in Ha.
      rewrite cell_eqb_sym; exact Ha. }
    rewrite Hz; reflexivity.
  - specialize (Ha k Hin); apply negb_true_iff in Ha.
    rewrite Ha; apply IH; assumption.
Qed.

Lemma filter_key_length {A : Type} (f : A -> cell) (ys : list A) (k : cell) :
  List.length (filter (fun y => cell_eqb (f y) k) ys)
  = List.length (filter (fun k' => cell_eqb k' k) (map f ys)).
Proof.
  induction ys as [|y ys IH]; simpl; [reflexivity|].
  destruct (cell_eqb (f y) k); simpl; rewrite IH; reflexivity.
Qed.

Lemma length_one {A : Type} (l : list A) : List.length l = 1%nat -> exists y, l = [y].
Proof.
  destruct l as [|y [|z l]]; simpl; intros H; try discriminate.
  exists y; reflexivity.
Qed.

(** With distinct keys, both sides carrying the same key sequence, the
    left merge pairs each left row with exactly one right row. *)
Lemma merge_left_keys (l r : table) (ks : list cell) :
  map (lookup key) (trows l) = ks ->
  map (lookup key) (trows r) = ks ->
  distinct_cells ks = true ->
  Forall (fun x => has_key x = true) (trows l) ->
  map (lookup key) (trows (merge_left l r)) = ks /\
  Forall (fun x => has_key x = true) (trows (merge_left l r)).
Proof.
  intros Hl Hr Hd Hk; unfold merge_left; simpl.
  assert (Hin : forall x, In x (trows l) -> In (lookup key x) ks).
  { intros x Hx; rewrite <- Hl; apply in_map; exact Hx. }
  rewrite <- Hl; clear Hl.
  induction (trows l) as [|x xs IH]; simpl; [split; constructor|].
  apply Forall_cons_iff in Hk as [Hx Hxs].
  assert (H1 : List.length (filter (fun y => cell_eqb (lookup key y) (lookup key x))
                                   (trows r)) = 1%nat).
  { rewrite filter_key_length, Hr.
    apply distinct_one; [exact Hd|apply Hin; left; reflexivity]. }
  apply length_one in H1 as [y Hy]; rewrite Hy; simpl.
  destruct (lookup_key_app x (filter (fun p => negb (String.eqb (fst p) key)) y) Hx)
    as [E1 E2].
  destruct IH as [IH1 IH2]; [exact Hxs|intros z Hz; apply Hin; right; exact Hz|].
  split; [rewrite E1, IH1; reflexivity|constructor; assumption].
Qed.

Lemma select_rename_keys (rest : list (column * string)) (df : frame) :
  map (lookup key) (trows (select_rename ((customerID, "customer_id") :: rest) (normalize df)))
  = map (fun r => r customerID) df /\
  Forall (fun x => has_key x = true)
    (trows (select_rename ((customerID, "customer_id") :: rest) (normalize df))).
Proof.
  rewrite normalize_map; unfold select_rename; simpl.
  induction df as [|r df [IH1 IH2]]; simpl; [split; constructor|].
  split; [rewrite IH1; reflexivity|constructor; [reflexivity|exact IH2]].
Qed.

Lemma churn_df_keys (df : frame) :
  map (lookup key) (trows (churn_df df)) = map (fun r => r customerID) df.
Proof.
  unfold churn_df; rewrite normalize_map; simpl.
  induction df as [|r df IH]; simpl; [reflexivity|rewrite IH; reflexivity].
Qed.

(** The rows a left row produces in a merge. *)
Lemma merge_left_row_shape (l r : table) (z : trow) :
  In z (trows (merge_left l r)) ->
  exists x sfx, In x (trows l) /\ z = x ++ sfx.
Proof.
  unfold merge_left; simpl; intros Hz; apply in_flat_map in Hz as [x [Hx Hz]].
  exists x; destruct (filter _ (trows r)) as [|y ys].
  - destruct Hz as [<-|[]]; eexists; split; [exact Hx|reflexivity].
  - destruct Hz as [<-|Hz]; [eexists; split; [exact Hx|reflexivity]|].
    apply in_map_iff in Hz as [w [<- _]]; eexists; split; [exact Hx|reflexivity].
Qed.

Lemma list_sum_flat_map {A B : Type} (h : B -> nat) (G : A -> list B) (xs : list A) :
  list_sum (map h (flat_map G xs)) = list_sum (map (fun x => list_sum (map h (G x))) xs).
Proof.
  induction xs as [|x xs IH]; simpl; [reflexivity|].
  rewrite map_app, list_sum_app, IH; reflexivity.
Qed.

Lemma list_sum_const {A : Type} (c : nat) (l : list A) :
  list_sum (map (fun _ => c) l) = (List.length l * c)%nat.
Proof. induction l as [|a l IH]; simpl; [reflexivity|rewrite IH; lia]. Qed.

Lemma list_sum_le {A : Type} (f g : A -> nat) (l : list A) :
  (forall x, In x l -> f x <= g x)%nat ->
  (list_sum (map f l) <= list_sum (map g l))%nat.
Proof.
  induction l as [|a l IH]; simpl; intros H; [lia|].
  specialize (H a (or_introl eq_refl)) as Ha.
  assert (list_sum (map f l) <= list_sum (map g l))%nat by (apply IH; auto); lia.
Qed.

Lemma list_sum_lt {A : Type} (f g : A -> nat) (l : list A) (y : A) :
  (forall x, In x l -> f x <= g x)%nat -> In y l -> (f y < g y)%nat ->
  (list_sum (map f l) < list_sum (map g l))%nat.
Proof.
  induction l as [|a l IH]; simpl; intros H Hy Hlt; [contradiction|].
  destruct Hy as [->|Hy].
  - assert (list_sum (map f l) <= list_sum (map g l))%nat by (apply list_sum_le; auto); lia.
  - specialize (H a (or_introl eq_refl)) as Ha.
    assert (list_sum (map f l) < list_sum (map g l))%nat by (apply IH; auto); lia.
Qed.

Lemma filter_length_pos {A : Type} (p : A -> bool) (l : list A) (y : A) :
  In y l -> p y = true -> (1 <= List.length (filter p l))%nat.
Proof.
  intros H Hp.
  destruct (filter p l) as [|z zs] eqn:E; simpl; [|lia].
  assert (Hin : In y (filter p l)) by (apply filter_In; split; assumption).
  rewrite E in Hin; destruct Hin.
Qed.

Lemma key_count_pos (ks : list cell) (k : cell) : In k ks -> (1 <= key_count ks k)%nat.
Proof. intros H; apply (filter_length_pos _ _ k H), cell_eqb_refl. Qed.

Lemma forallb_false_exists {A : Type} (p : A -> bool) (l : list A) :
  forallb p l = false -> exists x, In x l /\ p x = false.
Proof.
  induction l as [|a l IH]; simpl; [discriminate|].
  intros H; apply andb_false_iff in H as [H|H].
  - exists a; split; [left; reflexivity|exact H].
  - destruct (IH H) as [x [Hx Hp]]; exists x; split; [right; exact Hx|exact Hp].
Qed.

(** A key sequence that is not distinct has a key occurring twice. *)
Lemma not_distinct_repeat (ks : list cell) :
  distinct_cells ks = false -> exists k, In k ks /\ (2 <= key_count ks k)%nat.
Proof.
  unfold key_count; induction ks as [|a ks IH]; simpl; [discriminate|].
  intros Hd; apply andb_false_iff in Hd as [Ha|Hd].
  - apply forallb_false_exists in Ha as [b [Hb E]]; apply negb_false_iff in E.
    exists a; split; [left; reflexivity|]; rewrite cell_eqb_refl; simpl.
    enough (1 <= List.length (filter (fun k' => cell_eqb k' a) ks))%nat by lia.
    apply (filter_length_pos _ _ b Hb); rewrite cell_eqb_sym; exact E.
  - destruct (IH Hd) as [k [Hk H2]]; exists k; split; [right; exact Hk|].
    destruct (cell_eqb a k); simpl; lia.
Qed.

(** One left merge: a left row whose key occurs [m] times among the right
    table's keys yields [m] rows, each with the left row's key. *)
Lemma merge_step_count (l r : table) (ids : list cell) (f : cell -> nat) :
  map (lookup key) (trows r) = ids ->
  Forall (fun x => has_key x = true /\ In (lookup key x) ids) (trows l) ->
  list_sum (map (fun z => f (lookup key z)) (trows (merge_left l r)))
  = list_sum (map (fun x => key_count ids (lookup key x) * f (lookup key x))%nat (trows l))
  /\ Forall (fun z => has_key z = true /\ In (lookup key z) ids) (trows (merge_left l r)).
Proof.
  intros Hr Hl; rewrite Forall_forall in Hl; split.
  - unfold merge_left; cbn [trows]; rewrite list_sum_flat_map; f_equal.
    apply map_ext_in; intros x Hx; destruct (Hl x Hx) as [Hkx Hk].
    assert (Hc : List.length (filter (fun y => cell_eqb (lookup key y) (lookup key x))
                                     (trows r)) = key_count ids (lookup key x)).
    { rewrite filter_key_length, Hr; reflexivity. }
    assert (Hpos := key_count_pos ids _ Hk).
    destruct (filter _ (trows r)) as [|y ys]; [simpl in Hc; lia|].
    rewrite <- Hc, map_map.
    rewrite (map_ext_in _ (fun _ => f (lookup key x))), list_sum_const;
      [reflexivity|].
    intros w _; destruct (lookup_key_app x (filter (fun p => negb (String.eqb (fst p) key)) w) Hkx)
      as [E1 _]; rewrite E1; reflexivity.
  - apply Forall_forall; intros z Hz.
    destruct (merge_left_row_shape l r z Hz) as (x & sfx & Hx & ->).
    destruct (Hl x Hx) as [Hkx Hk].
    destruct (lookup_key_app x sfx Hkx) as [E1 E2].
    split; [exact E2|rewrite E1; exact Hk].
Qed.

(** C3 (counterexample): two input rows sharing [customerID] "C1" give a
    Customer table of 2 rows, and the merge chain multiplies the matches:
    2 x 2 x 2 x 2 = 16 joined rows. *)
Lemma C3_duplicate_id_fans_out :
  let df := [example_raw "C1" (CStr "Yes") (CStr "1");
             example_raw "C1" (CStr "No") (CStr "2")] in
  List.length (trows (customers_df df)) = 2%nat /\
  List.length (trows (joined_view df)) = 16%nat.
Proof. split; vm_compute; reflexivity. Qed.

(** C3 (amended): for an input whose [customerID] values are pairwise
    distinct, the left-merge chain Customer, ServiceProfile, BillingProfile,
    ChurnOutcome on [customer_id] gives exactly one row per Customer row,
    with the Customer table's key sequence; in particular the row counts
    are equal.  For every input, a Customer row whose id occurs [m] times
    among the ids yields [m * m * m] joined rows (one factor per merge),
    so when some id is repeated the join has strictly more rows than the
    Customer table. *)
Theorem C3_join_round_trip (df : frame) :
  let ids := map (fun r => r customerID) df in
  (distinct_cells ids = true ->
   map (lookup key) (trows (joined_view df)) = map (lookup key) (trows (customers_df df)) /\
   List.length (trows (joined_view df)) = List.length (trows (customers_df df))) /\
  List.length (trows (joined_view df))
  = list_sum (map (fun r => key_count ids (r customerID) ^ 3)%nat df) /\
  (distinct_cells ids = false ->
   List.length (trows (customers_df df)) < List.length (trows (joined_view df)))%nat.
Proof.
  intros ids.
  destruct (select_rename_keys (tl customers_cols) df) as [Kc0 Fc].
  destruct (select_rename_keys (tl services_cols) df) as [Ks0 _].
  destruct (select_rename_keys (tl billing_cols) df) as [Kb0 _].
  pose proof (churn_df_keys df) as Kch.
  assert (Kc : map (lookup key) (trows (customers_df df)) = ids) by exact Kc0.
  assert (Ks : map (lookup key) (trows (services_df df)) = ids) by exact Ks0.
  assert (Kb : map (lookup key) (trows (billing_df df)) = ids) by exact Kb0.
  assert (Lc : List.length (trows (customers_df df)) = List.length df).
  { rewrite <- (length_map (lookup key)), Kc; unfold ids; apply length_map. }
  (* the count formula, through the three merges *)
  assert (I0 : Forall (fun x => has_key x = true /\ In (lookup key x) ids)
                      (trows (customers_df df))).
  { apply Forall_forall; intros x Hx; split.
    - rewrite Forall_forall in Fc; exact (Fc x Hx).
    - rewrite <- Kc; apply in_map; exact Hx. }
  set (cnt := key_count ids).
  destruct (merge_step_count _ _ ids (fun k => cnt k * (cnt k * 1))%nat Ks I0) as [L1 I1].
  destruct (merge_step_count _ _ ids (fun k => cnt k * 1)%nat Kb I1) as [L2 I2].
  destruct (merge_step_count _ _ ids (fun _ => 1%nat) Kch I2) as [L3 _].
  cbv beta in L1, L2, L3; fold cnt in L1, L2, L3.
  assert (Hsum : forall h : cell -> nat,
            list_sum (map (fun x => h (lookup key x)) (trows (customers_df df)))
            = list_sum (map (fun r => h (r customerID)) df)).
  { intros h; rewrite <- (map_map (lookup key) h), Kc; unfold ids; rewrite map_map;
      reflexivity. }
  assert (Hlen : List.length (trows (joined_view df))
                 = list_sum (map (fun r => cnt (r customerID) ^ 3)%nat df)).
  { unfold joined_view, load_data.
    rewrite <- (Nat.mul_1_r (List.length _)), <- list_sum_const.
    rewrite L3, L2, L1,
      (Hsum (fun k => cnt k * (cnt k * (cnt k * 1)))%nat); reflexivity. }
  split; [|split; [exact Hlen|]].
  - intros Hd.
    destruct (merge_left_keys (customers_df df) (services_df df) _ Kc0 Ks0 Hd Fc)
      as [K1 F1].
    destruct (merge_left_keys _ (billing_df df) _ K1 Kb0 Hd F1) as [K2 F2].
    destruct (merge_left_keys _ (churn_df df) _ K2 Kch Hd F2) as [K3 _].
    unfold joined_view, load_data.
    assert (E : map (lookup key) (trows (merge_left (merge_left (merge_left
               (customers_df df) (services_df df)) (billing_df df)) (churn_df df)))
               = map (lookup key) (trows (customers_df df))).
    { rewrite K3; symmetry; exact Kc. }
    split; [exact E|].
    rewrite <- (length_map (lookup key)), E, length_map; reflexivity.
  - intros Hd; rewrite Hlen, Lc.
    destruct (not_distinct_repeat ids Hd) as [k [Hk H2]].
    apply in_map_iff in Hk as [r [Er Hr]].
    rewrite <- (Nat.mul_1_r (List.length df)), <- (list_sum_const 1%nat df).
    apply (list_sum_lt _ _ df r); [|exact Hr|].
    + intros x Hx; assert (Hp : (1 <= cnt (x customerID))%nat).
      { apply key_count_pos; unfold ids; apply (in_map (fun r0 : row => r0 customerID)); exact Hx. }
      simpl; nia.
    + fold cnt in H2; rewrite Er; simpl; nia.
Qed.

(** Witness of C3: two customers with distinct ids. *)
Lemma C3_join_round_trip_witness :
  let df := [example_raw "C1" (CStr "Yes") (CStr "1");
             example_raw "C2" (CStr "No") (CStr "2")] in
  distinct_cells (map (fun r => r customerID) df) = true /\
  List.length (trows (joined_view df)) = List.length (trows (customers_df df)).
Proof.
  intros df; split; [vm_compute; reflexivity|].
  apply (proj1 (C3_join_round_trip df)); vm_compute; reflexivity.
Defined.

(** ** C4 and C10: the filter *)

Lemma isin_allowed (v : cell) (sel : list string) : isin v sel = allowed v sel.
Proof.
  destruct v as [s| | | |]; simpl; try reflexivity.
  destruct (in_dec string_dec s sel) as [H|H].
  - apply existsb_exists; exists s; split; [exact H|apply String.eqb_refl].
  - apply not_true_iff_false; intros E; apply existsb_exists in E as [t [Ht E]].
    apply String.eqb_eq in E; subst; contradiction.
Qed.

Lemma filter_filter_and {A : Type} (p q : A -> bool) (l : list A) :
  filter q (filter p l) = filter (fun x => p x && q x) l.
Proof.
  induction l as [|a l IH]; simpl; [reflexivity|].
  destruct (p a); simpl; [destruct (q a); simpl|]; rewrite IH; reflexivity.
Qed.

Lemma df_filtered_spec_keep (fs : filter_spec) (df : view) :
  df_filtered fs df = filter (spec_keep fs None) df.
Proof.
  unfold df_filtered; destruct (high_risk_toggle fs) eqn:Hr;
    [rewrite filter_filter_and|]; apply filter_ext; intros x;
    unfold spec_keep; simpl; rewrite Hr, !isin_allowed;
    unfold between, in_range, is_yes; btauto.
Qed.

Lemma allowed_nil (v : cell) : allowed v [] = false.
Proof. destruct v; reflexivity. Qed.

(** C4 (counterexample): in a joined view where customer "C2" has no churn
    row, the form's default (full) churn selection still drops "C2", a row
    that meets every other condition of the filter. *)
Lemma C4_full_selection_drops_null :
  let v := view_missing_churn in
  match default_spec v with
  | Some fs =>
      churn_filter fs = observed "churn_status" v /\
      spec_keep fs (Some FChurn) (nth 1 v []) = true /\
      map (lookup "customer_id") (df_filtered fs v) = [CStr "C1"]
  | None => False
  end.
Proof. vm_compute; split; [reflexivity|split; reflexivity]. Qed.

(** C4 (amended): the filter keeps, in order, exactly the rows whose gender,
    contract and churn_status are non-null values in their allowed sets,
    whose tenure and monthly_charges lie in the inclusive ranges and, when
    high_risk_only is set, whose tenure is below 6 with churn_status "Yes".
    An empty allowed set for a categorical field empties the result.  An
    allowed set holding every non-null value of a field removes that
    field's condition, except that the rows where the field is null are
    still dropped. *)
Theorem C4_filter_engine (fs : filter_spec) (df : view) :
  df_filtered fs df = filter (spec_keep fs None) df /\
  (forall f, cat_sel fs f = [] -> df_filtered fs df = []) /\
  (forall f,
     (forall x s, In x df -> lookup (cat_name f) x = CStr s -> In s (cat_sel fs f)) ->
     df_filtered fs df =
       filter (fun x => is_str (lookup (cat_name f) x) && spec_keep fs (Some f) x) df).
Proof.
  split; [apply df_filtered_spec_keep|split].
  - intros f Hf; rewrite df_filtered_spec_keep; apply filter_all_false.
    intros x _; unfold spec_keep; destruct f; simpl in Hf |- *; rewrite Hf, allowed_nil;
      btauto.
  - intros f Hfull; rewrite df_filtered_spec_keep; apply filter_ext_in.
    intros x Hx.
    assert (Ha : allowed (lookup (cat_name f) x) (cat_sel fs f)
                 = is_str (lookup (cat_name f) x)).
    { specialize (Hfull x); destruct (lookup (cat_name f) x) as [s| | | |];
        try reflexivity.
      simpl; destruct (in_dec string_dec s (cat_sel fs f)) as [_|H]; [reflexivity|].
      exfalso; apply H, (Hfull s Hx eq_refl). }
    unfold spec_keep; destruct f; simpl in Ha |- *; rewrite Ha; btauto.
Qed.

(** C10: a row whose gender, contract or churn_status is null is left out
    of the filtered view, whatever the selections of the form. *)
Theorem C10_null_rows_excluded (fs : filter_spec) (df : view) (x : trow) :
  lookup "gender" x = CNull \/ lookup "contract" x = CNull \/
  lookup "churn_status" x = CNull ->
  ~ In x (df_filtered fs df).
Proof.
  intros Hnull Hin; rewrite df_filtered_spec_keep in Hin.
  apply filter_In in Hin as [_ Hk]; unfold spec_keep in Hk; simpl in Hk.
  rewrite !andb_true_iff in Hk.
  destruct Hk as [[[[Hg [Hc [Hch _]]] _] _] _].
  destruct Hnull as [E|[E|E]]; [rewrite E in Hg|rewrite E in Hc|rewrite E in Hch];
    discriminate.
Qed.

(** Witness of C10: customer "C2" of [view_missing_churn] under the form's
    default selections. *)
Lemma C10_null_rows_excluded_witness :
  let v := view_missing_churn in
  let fs := mkFilterSpec ["Female"] ["Month-to-month"] ["No"] (0, 72)%Z (0, 120) false in
  lookup "churn_status" (nth 1 v []) = CNull /\ ~ In (nth 1 v []) (df_filtered fs v).
Proof.
  intros v fs; split; [vm_compute; reflexivity|].
  apply (C10_null_rows_excluded fs v (nth 1 v [])).
  right; right; vm_compute; reflexivity.
Defined.

(** ** C5, C6 and C9: the Executive Summary *)

Lemma guarded_pct_some (k total : nat) :
  exists q, guarded_pct k total = Some q.
Proof.
  unfold guarded_pct; destruct total as [|t]; simpl; [eexists; reflexivity|].
  unfold py_div; eexists; reflexivity.
Qed.

(** The summary never raises: it is the record of the aggregates. *)
Lemma summarize_shape (df fv : view) :
  let total := nunique (column_of "customer_id" fv) in
  let churned := count (fun x => is_yes (lookup "churn_status" x)) fv in
  let high_risk := count (fun x => cell_lt (lookup "tenure" x) 3 &&
                                   is_yes (lookup "churn_status" x)) fv in
  let premium := count (fun x => gt_opt (lookup "monthly_charges" x)
                          (series_median (column_of "monthly_charges" df))) fv in
  let loyal := count (fun x => cell_gt (lookup "tenure" x) 24) fv in
  exists cr hr pr lo,
    guarded_pct churned total = Some cr /\
    summarize df fv =
      Some (mkSummary total churned cr
              (series_sum (column_of "monthly_charges"
                 (filter (fun x => is_yes (lookup "churn_status" x)) fv)) * 12)
              high_risk (series_mean (column_of "tenure" fv)) premium loyal
              hr pr lo).
Proof.
  intros total churned high_risk premium loyal.
  destruct (guarded_pct_some churned total) as [cr Hcr].
  destruct (guarded_pct_some high_risk total) as [hr Hhr].
  destruct (guarded_pct_some premium total) as [pr Hpr].
  destruct (guarded_pct_some loyal total) as [lo Hlo].
  exists cr, hr, pr, lo; split; [exact Hcr|].
  unfold summarize; fold total churned high_risk premium loyal.
  rewrite Hcr; simpl; rewrite Hhr; simpl; rewrite Hpr; simpl; rewrite Hlo.
  reflexivity.
Qed.

(** C5: for every filter specification, premium_count counts the rows of
    the filtered view whose monthly_charges exceed the median of
    monthly_charges over the unfiltered view [df]. *)
Theorem C5_premium_baseline (fs : filter_spec) (df : view) :
  option_map premium_count (executive_summary fs df) =
  Some (count (fun x => gt_opt (lookup "monthly_charges" x)
                  (series_median (column_of "monthly_charges" df)))
              (df_filtered fs df)).
Proof.
  unfold executive_summary.
  destruct (summarize_shape df (df_filtered fs df)) as (cr & hr & pr & lo & _ & E).
  rewrite E; reflexivity.
Qed.

(** C6: on an empty filtered view the summary raises nothing, counts 0
    customers, has churn rate 0 (shown "0%") and shows the average tenure
    as "N/A". *)
Theorem C6_empty_view (fs : filter_spec) (df : view) :
  df_filtered fs df = [] ->
  exists s, executive_summary fs df = Some s /\
            total_customers s = 0%nat /\ churn_rate s == 0 /\
            churn_rate_tile s = TText "0%" /\
            avg_tenure_tile (avg_tenure s) = TText "N/A".
Proof.
  intros H; unfold executive_summary; rewrite H.
  eexists; split; [reflexivity|].
  repeat split; reflexivity.
Qed.

(** Witness of C6: an empty gender selection on [view_missing_churn]. *)
Lemma C6_empty_view_witness :
  let fs := mkFilterSpec [] ["Month-to-month"] ["No"] (0, 72)%Z (0, 120) false in
  df_filtered fs view_missing_churn = [] /\
  exists s, executive_summary fs view_missing_churn = Some s /\
            total_customers s = 0%nat /\ churn_rate s == 0 /\
            churn_rate_tile s = TText "0%" /\
            avg_tenure_tile (avg_tenure s) = TText "N/A".
Proof.
  intros fs; split; [vm_compute; reflexivity|].
  apply (C6_empty_view fs view_missing_churn); vm_compute; reflexivity.
Defined.

Lemma dedup_cells_distinct (l : list cell) :
  distinct_cells l = true -> dedup_cells l = l.
Proof.
  induction l as [|a l IH]; simpl; [reflexivity|].
  intros H; apply andb_true_iff in H as [Ha Hl]; rewrite forallb_forall in Ha.
  replace (existsb (cell_eqb a) l) with false; [rewrite IH by exact Hl; reflexivity|].
  symmetry; apply not_true_iff_false; intros E.
  apply existsb_exists in E as [y [Hy E]].
  specialize (Ha y Hy); rewrite E in Ha; discriminate.
Qed.

Lemma nunique_distinct (l : list cell) :
  distinct_cells l = true -> forallb (fun v => negb (cell_eqb v CNull)) l = true ->
  nunique l = List.length l.
Proof.
  intros Hd Hn; unfold nunique.
  rewrite (forallb_filter_id _ _ Hn), (dedup_cells_distinct _ Hd); reflexivity.
Qed.

(** C9: on a filtered view whose customer ids are non-null and distinct,
    revenue_at_risk is 12 times the sum of monthly_charges over the rows
    with churn_status "Yes" and churn_rate is the percentage of rows with
    churn_status "Yes"; with 10 such customers of which the churned ones
    pay 50, 60 and 70, revenue_at_risk is 2160 and churn_rate is 30. *)
Theorem C9_kpi_formulas (df fv : view) :
  distinct_cells (column_of "customer_id" fv) = true ->
  forallb (fun v => negb (cell_eqb v CNull)) (column_of "customer_id" fv) = true ->
  let churned_rows := filter (fun x => is_yes (lookup "churn_status" x)) fv in
  exists s, summarize df fv = Some s /\
    revenue_at_risk s = series_sum (column_of "monthly_charges" churned_rows) * 12 /\
    (fv <> [] ->
     churn_rate s == Qnat (List.length churned_rows) / Qnat (List.length fv) * 100) /\
    (List.length fv = 10%nat ->
     column_of "monthly_charges" churned_rows = [CNum 50; CNum 60; CNum 70] ->
     revenue_at_risk s == 2160 /\ churn_rate s == 30).
Proof.
  intros Hd Hn churned_rows.
  destruct (summarize_shape df fv) as (cr & hr & pr & lo & Hcr & E).
  assert (Hl : List.length (column_of "customer_id" fv) = List.length fv)
    by apply length_map.
  rewrite (nunique_distinct _ Hd Hn), Hl in Hcr, E.
  eexists; split; [exact E|]; cbn [revenue_at_risk churn_rate].
  split; [reflexivity|split].
  - intros Hne; unfold guarded_pct, count in Hcr.
    destruct fv as [|x fv']; [contradiction|]; simpl in Hcr |- *.
    unfold py_div in Hcr; simpl in Hcr.
    injection Hcr as <-; reflexivity.
  - intros Hlen Hmc.
    assert (Hc : List.length churned_rows = 3%nat).
    { rewrite <- (length_map (lookup "monthly_charges")).
      change (List.length (column_of "monthly_charges" churned_rows) = 3%nat).
      rewrite Hmc; reflexivity. }
    unfold count in Hcr; fold churned_rows in Hcr; rewrite Hc, Hlen in Hcr.
    vm_compute in Hcr; injection Hcr as <-.
    unfold churned_rows in Hmc; rewrite Hmc; split; reflexivity.
Qed.

(** Witness of C9: [kpi_view]. *)
Lemma C9_kpi_formulas_witness :
  distinct_cells (column_of "customer_id" kpi_view) = true /\
  forallb (fun v => negb (cell_eqb v CNull)) (column_of "customer_id" kpi_view) = true /\
  exists s, summarize kpi_view kpi_view = Some s /\
            revenue_at_risk s == 2160 /\ churn_rate s == 30.
Proof.
  assert (H1 : distinct_cells (column_of "customer_id" kpi_view) = true)
    by (vm_compute; reflexivity).
  assert (H2 : forallb (fun v => negb (cell_eqb v CNull))
                 (column_of "customer_id" kpi_view) = true)
    by (vm_compute; reflexivity).
  split; [exact H1|split; [exact H2|]].
  destruct (C9_kpi_formulas kpi_view kpi_view H1 H2) as (s & Hs & _ & _ & H3).
  exists s; split; [exact Hs|].
  apply H3; vm_compute; reflexivity.
Defined.

(** ** Further properties: the split, the merge chain and the loader *)

Lemma flat_map_prefix_rows {B : Type} (F : list B -> list (list B)) (xs : list (list B)) :
  (forall x, exists sfx rest, F x = (x ++ sfx) :: rest) ->
  (List.length xs <= List.length (flat_map F xs))%nat /\
  Forall (fun x => exists z sfx, In z (flat_map F xs) /\ z = x ++ sfx) xs.
Proof.
  intros HF; induction xs as [|x xs [IH1 IH2]]; simpl; [split; [lia|constructor]|].
  destruct (HF x) as (sfx & rest & E); rewrite E; simpl.
  rewrite length_app; split; [lia|constructor].
  - exists (x ++ sfx), sfx; split; [left|]; reflexivity.
  - eapply Forall_impl; [|exact IH2].
    intros x' (z & sfx' & Hz & ->); exists (x' ++ sfx'), sfx'; split;
      [right; apply in_or_app; right; exact Hz|reflexivity].
Qed.

(** X1: the left merge never drops a left row: each left row is the
    prefix of at least one merged row, so there are at least as many
    merged rows as left rows. *)
Theorem merge_left_keeps_left_rows (l r : table) :
  (List.length (trows l) <= List.length (trows (merge_left l r)))%nat /\
  Forall (fun x => exists z sfx, In z (trows (merge_left l r)) /\ z = x ++ sfx)
         (trows l).
Proof.
  unfold merge_left; simpl; apply flat_map_prefix_rows.
  intros x; destruct (filter _ (trows r)) as [|y ys]; simpl.
  - eexists; exists []; reflexivity.
  - eexists; eexists; reflexivity.
Qed.

Lemma Forall2_map_self {A B : Type} (P : A -> B -> Prop) (f : A -> B) (l : list A) :
  (forall a, P a (f a)) -> Forall2 P l (map f l).
Proof. intros H; induction l; simpl; constructor; auto. Qed.

(** Closes [lookup name row = cell] for each pair [(col, name)] of a
    concrete column list. *)
Ltac solve_pairs H :=
  simpl in H;
  repeat (destruct H as [H|H]; [injection H as <- <-; reflexivity|]);
  contradiction.

Lemma select_rename_normalize (m : list (column * string)) (df : frame) :
  trows (select_rename m (normalize df)) = map (fun r => select_row m (norm_row r)) df.
Proof. rewrite normalize_map; unfold select_rename; simpl; apply map_map. Qed.

Lemma churn_df_rows (df : frame) :
  trows (churn_df df) =
  map (fun r => select_row churn_cols (norm_row r) ++ [("churn_date", CNull)]) df.
Proof.
  unfold churn_df; cbv zeta; cbn [trows].
  rewrite select_rename_normalize, map_map; reflexivity.
Qed.

(** X2: the split gives each of the four tables one row per input row, in
    input order; every renamed column of a table holds the normalized value
    of its source column, and [churn_date] is NaN in every churn row. *)
Theorem split_tables_rowwise (df : frame) :
  Forall2 (fun r x => forall col name, In (col, name) customers_cols ->
             lookup name x = norm_cell col (r col)) df (trows (customers_df df)) /\
  Forall2 (fun r x => forall col name, In (col, name) services_cols ->
             lookup name x = norm_cell col (r col)) df (trows (services_df df)) /\
  Forall2 (fun r x => forall col name, In (col, name) billing_cols ->
             lookup name x = norm_cell col (r col)) df (trows (billing_df df)) /\
  Forall2 (fun r x => (forall col name, In (col, name) churn_cols ->
             lookup name x = norm_cell col (r col)) /\
             lookup "churn_date" x = CNull) df (trows (churn_df df)).
Proof.
  unfold customers_df, services_df, billing_df; rewrite churn_df_rows.
  rewrite !select_rename_normalize.
  split; [apply Forall2_map_self; intros r col name H; solve_pairs H|].
  split; [apply Forall2_map_self; intros r col name H; solve_pairs H|].
  split; [apply Forall2_map_self; intros r col name H; solve_pairs H|].
  apply Forall2_map_self; intros r; split; [intros col name H; solve_pairs H|reflexivity].
Qed.

Lemma filter_pick {A : Type} (g : A -> trow) (items : list A) (a : A) :
  distinct_cells (map (fun b => lookup key (g b)) items) = true -> In a items ->
  filter (fun y => cell_eqb (lookup key y) (lookup key (g a))) (map g items) = [g a].
Proof.
  induction items as [|b items IH]; simpl; [contradiction|].
  intros Hd Hin; apply andb_true_iff in Hd as [Hb Hd]; rewrite forallb_forall in Hb.
  destruct Hin as [<-|Hin].
  - rewrite cell_eqb_refl; f_equal; apply filter_all_false.
    intros y Hy; apply in_map_iff in Hy as [c [<- Hc]].
    specialize (Hb (lookup key (g c)) (in_map _ _ _ Hc)); apply negb_true_iff in Hb.
    rewrite cell_eqb_sym; exact Hb.
  - specialize (Hb (lookup key (g a)) (in_map (fun b => lookup key (g b)) _ _ Hin)).
    apply negb_true_iff in Hb; rewrite Hb; apply IH; assumption.
Qed.

(** With aligned, distinct keys the left merge pairs the rows index by
    index. *)
Lemma merge_left_map {A : Type} (l r : table) (f g : A -> trow) (items : list A) :
  trows l = map f items -> trows r = map g items ->
  (forall a, lookup key (g a) = lookup key (f a)) ->
  distinct_cells (map (fun a => lookup key (f a)) items) = true ->
  trows (merge_left l r) = map (fun a => f a ++ strip_key (g a)) items.
Proof.
  intros Hl Hr Hk Hd; unfold merge_left; simpl; rewrite Hl, Hr.
  assert (Hd' : distinct_cells (map (fun a => lookup key (g a)) items) = true).
  { rewrite (map_ext _ _ Hk); exact Hd. }
  assert (Hsub : forall sub, incl sub items ->
    flat_map (fun x =>
      match filter (fun y => cell_eqb (lookup key y) (lookup key x)) (map g items) with
      | [] => [x ++ map (fun c => (c, CNull))
                        (filter (fun c => negb (String.eqb c key)) (tcols r))]
      | ms => map (fun y => x ++ strip_key y) ms
      end) (map f sub) = map (fun a => f a ++ strip_key (g a)) sub).
  { induction sub as [|a sub IH]; simpl; intros Hinc; [reflexivity|].
    rewrite <- (Hk a), (filter_pick g items a Hd' (Hinc a (or_introl eq_refl))).
    simpl; f_equal; apply IH; intros b Hb; apply Hinc; right; exact Hb. }
  apply Hsub; intros a Ha; exact Ha.
Qed.

Lemma joined_view_rows (df : frame) :
  distinct_cells (map (fun r => r customerID) df) = true ->
  trows (joined_view df) = map (fun r => joined_row (norm_row r)) df.
Proof.
  intros Hd; unfold joined_view, load_data.
  assert (Hc : trows (customers_df df) =
               map (fun r => select_row customers_cols (norm_row r)) df)
    by apply select_rename_normalize.
  assert (Hs : trows (services_df df) =
               map (fun r => select_row services_cols (norm_row r)) df)
    by apply select_rename_normalize.
  assert (Hb : trows (billing_df df) =
               map (fun r => select_row billing_cols (norm_row r)) df)
    by apply select_rename_normalize.
  pose proof (churn_df_rows df) as Hch.
  assert (Hd1 : distinct_cells (map (fun r => lookup key
                  (select_row customers_cols (norm_row r))) df) = true)
    by exact Hd.
  pose proof (merge_left_map _ _ _ _ df Hc Hs (fun r => eq_refl) Hd1) as M1.
  pose proof (merge_left_map _ _ _ _ df M1 Hb (fun r => eq_refl) Hd) as M2.
  pose proof (merge_left_map _ _ _ _ df M2 Hch (fun r => eq_refl) Hd) as M3.
  rewrite M3; reflexivity.
Qed.

(** X3: when the input's customer ids are distinct, the joined view holds
    one row per input row, in input order, in which every column of the
    four tables reads back the normalized value of its source column and
    [churn_date] is NaN: splitting and merging back loses nothing. *)
Theorem joined_view_reconstructs (df : frame) :
  distinct_cells (map (fun r => r customerID) df) = true ->
  Forall2 (fun r z =>
    (forall col name,
       In (col, name) (customers_cols ++ services_cols ++ billing_cols ++ churn_cols) ->
       lookup name z = norm_cell col (r col)) /\
    lookup "churn_date" z = CNull)
    df (trows (joined_view df)).
Proof.
  intros Hd; rewrite (joined_view_rows df Hd).
  apply Forall2_map_self; intros r; split; [|reflexivity].
  intros col name H; simpl in H.
  (* the key column appears once per table; every copy reads [customerID] *)
  repeat (destruct H as [H|H]; [injection H as <- <-; reflexivity|]); contradiction.
Qed.

(** Witness of X3: two customers with distinct ids. *)
Lemma joined_view_reconstructs_witness :
  let df := [example_raw "C1" (CStr "Yes") (CStr "1");
             example_raw "C2" (CStr "No") (CStr " ")] in
  distinct_cells (map (fun r => r customerID) df) = true /\
  Forall2 (fun r z =>
    (forall col name,
       In (col, name) (customers_cols ++ services_cols ++ billing_cols ++ churn_cols) ->
       lookup name z = norm_cell col (r col)) /\
    lookup "churn_date" z = CNull)
    df (trows (joined_view df)).
Proof.
  intros df; split; [vm_compute; reflexivity|].
  apply (joined_view_reconstructs df); vm_compute; reflexivity.
Defined.

Lemma flat_map_const_length {A B : Type} (F : A -> list B) (xs : list A) (c : nat) :
  (forall x, In x xs -> List.length (F x) = c) ->
  List.length (flat_map F xs) = (c * List.length xs)%nat.
Proof.
  induction xs as [|x xs IH]; simpl; intros H; [lia|].
  rewrite length_app, H, IH by auto; lia.
Qed.

(** One merge against a table holding every key of [ids] twice. *)
Lemma merge_step_double (l r : table) (ids : list cell) :
  distinct_cells ids = true ->
  map (lookup key) (trows r) = ids ++ ids ->
  Forall (fun x => has_key x = true /\ In (lookup key x) ids) (trows l) ->
  List.length (trows (merge_left l r)) = (2 * List.length (trows l))%nat /\
  Forall (fun z => has_key z = true /\ In (lookup key z) ids) (trows (merge_left l r)).
Proof.
  intros Hd Hr Hl; rewrite Forall_forall in Hl; split.
  - unfold merge_left; cbn [trows]; apply flat_map_const_length.
    intros x Hx; destruct (Hl x Hx) as [_ Hk].
    assert (H2 : List.length (filter (fun y => cell_eqb (lookup key y) (lookup key x))
                                     (trows r)) = 2%nat).
    { rewrite filter_key_length, Hr, filter_app, length_app.
      rewrite (distinct_one ids _ Hd Hk); reflexivity. }
    destruct (filter _ (trows r)) as [|y ys]; [discriminate|].
    rewrite length_map; exact H2.
  - apply Forall_forall; intros z Hz.
    destruct (merge_left_row_shape l r z Hz) as (x & sfx & Hx & ->).
    destruct (Hl x Hx) as [Hkx Hk].
    destruct (lookup_key_app x sfx Hkx) as [E1 E2].
    split; [exact E2|rewrite E1; exact Hk].
Qed.

(** X4: running the load script a second time on the same file appends
    every row again: each stored table holds its rows twice, and for an
    input of [n] customers with distinct ids the dashboard's merge chain
    then yields [2 * 2 * 2 * 2 * n = 16 n] rows instead of [n]. *)
Theorem double_load_inflates_view (df : frame) :
  distinct_cells (map (fun r => r customerID) df) = true ->
  let db := load_pass (load_pass empty_store df) df in
  trows (db_customers db) = trows (customers_df df) ++ trows (customers_df df) /\
  trows (db_services db) = trows (services_df df) ++ trows (services_df df) /\
  trows (db_billing db) = trows (billing_df df) ++ trows (billing_df df) /\
  trows (db_churn_outcomes db) = trows (churn_df df) ++ trows (churn_df df) /\
  List.length (trows (dashboard_view db)) = (16 * List.length df)%nat.
Proof.
  intros Hd db; do 4 (split; [reflexivity|]).
  set (ids := map (fun r => r customerID) df).
  destruct (select_rename_keys (tl customers_cols) df) as [Kc0 Fc].
  destruct (select_rename_keys (tl services_cols) df) as [Ks0 _].
  destruct (select_rename_keys (tl billing_cols) df) as [Kb0 _].
  assert (Kc : map (lookup key) (trows (customers_df df)) = ids) by exact Kc0.
  assert (Ks : map (lookup key) (trows (services_df df)) = ids) by exact Ks0.
  assert (Kb : map (lookup key) (trows (billing_df df)) = ids) by exact Kb0.
  pose proof (churn_df_keys df) as Kch.
  assert (Ec : trows (db_customers db) = trows (customers_df df) ++ trows (customers_df df))
    by reflexivity.
  assert (Es : trows (db_services db) = trows (services_df df) ++ trows (services_df df))
    by reflexivity.
  assert (Eb : trows (db_billing db) = trows (billing_df df) ++ trows (billing_df df))
    by reflexivity.
  assert (Ech : trows (db_churn_outcomes db) = trows (churn_df df) ++ trows (churn_df df))
    by reflexivity.
  assert (H0 : Forall (fun x => has_key x = true /\ In (lookup key x) ids)
                 (trows (db_customers db))).
  { rewrite Ec; apply Forall_app; split;
      (apply Forall_forall; intros x Hx; split;
       [exact (proj1 (Forall_forall _ _) Fc x Hx)
       |rewrite <- Kc; apply in_map; exact Hx]). }
  assert (L0 : List.length (trows (db_customers db)) = (2 * List.length df)%nat).
  { rewrite Ec, length_app.
    rewrite <- (length_map (lookup key) (trows (customers_df df))), Kc; unfold ids; rewrite length_map.
    unfold row; lia. }
  assert (Rs : map (lookup key) (trows (db_services db)) = ids ++ ids)
    by (rewrite Es, map_app, Ks; reflexivity).
  assert (Rb : map (lookup key) (trows (db_billing db)) = ids ++ ids)
    by (rewrite Eb, map_app, Kb; reflexivity).
  assert (Rc : map (lookup key) (trows (db_churn_outcomes db)) = ids ++ ids)
    by (rewrite Ech, map_app, Kch; reflexivity).
  destruct (merge_step_double _ _ ids Hd Rs H0) as [L1 H1].
  destruct (merge_step_double _ _ ids Hd Rb H1) as [L2 H2].
  destruct (merge_step_double _ _ ids Hd Rc H2) as [L3 _].
  unfold dashboard_view, load_data; rewrite L3, L2, L1, L0; lia.
Qed.

(** Witness of X4: two customers loaded twice give 32 joined rows. *)
Lemma double_load_inflates_view_witness :
  let df := [example_raw "C1" (CStr "Yes") (CStr "1");
             example_raw "C2" (CStr "No") (CStr "2")] in
  distinct_cells (map (fun r => r customerID) df) = true /\
  List.length (trows (dashboard_view (load_pass (load_pass empty_store df) df))) = 32%nat.
Proof.
  intros df.
  assert (Hd : distinct_cells (map (fun r => r customerID) df) = true)
    by (vm_compute; reflexivity).
  split; [exact Hd|].
  destruct (double_load_inflates_view df Hd) as (_ & _ & _ & _ & H); exact H.
Defined.

(** ** Further properties: the filter form *)

Lemma allowed_incl (v : cell) (sel1 sel2 : list string) :
  incl sel1 sel2 -> allowed v sel1 = true -> allowed v sel2 = true.
Proof.
  intros Hi; destruct v as [s| | | |]; simpl; try discriminate.
  destruct (in_dec string_dec s sel1) as [H1|]; [|discriminate].
  destruct (in_dec string_dec s sel2) as [|H2]; [reflexivity|].
  exfalso; apply H2, Hi, H1.
Qed.

Lemma in_range_widen (v : cell) (lo1 hi1 lo2 hi2 : Q) :
  lo2 <= lo1 -> hi1 <= hi2 -> in_range v lo1 hi1 = true -> in_range v lo2 hi2 = true.
Proof.
  intros Hlo Hhi; unfold in_range; destruct (cell_num v) as [t|]; [|discriminate].
  rewrite !andb_true_iff, !Qle_bool_iff; intros [H1 H2]; split.
  - apply Qle_trans with lo1; assumption.
  - apply Qle_trans with hi1; assumption.
Qed.

Lemma spec_keep_within (fs1 fs2 : filter_spec) (x : trow) :
  spec_within fs1 fs2 -> spec_keep fs1 None x = true -> spec_keep fs2 None x = true.
Proof.
  intros (Hg & Hc & Hch & Ht1 & Ht2 & Hm1 & Hm2 & Hr).
  unfold spec_keep; simpl; rewrite !andb_true_iff.
  intros [[[[Ag [Ac [Ach _]]] At] Am] Ar].
  split; [split; [split|]|].
  - split; [apply (allowed_incl _ _ _ Hg Ag)|].
    split; [apply (allowed_incl _ _ _ Hc Ac)|].
    split; [apply (allowed_incl _ _ _ Hch Ach)|reflexivity].
  - rewrite Zle_Qle in Ht1, Ht2; apply (in_range_widen _ _ _ _ _ Ht1 Ht2 At).
  - apply (in_range_widen _ _ _ _ _ Hm1 Hm2 Am).
  - destruct (high_risk_toggle fs2); simpl; [|reflexivity].
    rewrite (Hr eq_refl) in Ar; exact Ar.
Qed.

(** X5: filtering by a wider form and then by a narrower one is filtering
    by the narrower one: the rows a selection keeps, in order, are kept by
    every wider selection (a larger allowed set, a wider range, or the
    high-risk toggle switched off).  With [fs1 = fs2], applying the same
    filters twice changes nothing. *)
Theorem df_filtered_narrowing (fs1 fs2 : filter_spec) (df : view) :
  spec_within fs1 fs2 ->
  df_filtered fs1 (df_filtered fs2 df) = df_filtered fs1 df.
Proof.
  intros Hw; rewrite !df_filtered_spec_keep, filter_filter_and.
  apply filter_ext; intros x.
  destruct (spec_keep fs1 None x) eqn:E.
  - rewrite (spec_keep_within fs1 fs2 x Hw E); reflexivity.
  - apply andb_false_r.
Qed.

(** Witness of X5: the high-risk view inside the form's defaults on
    [kpi_view]. *)
Lemma df_filtered_narrowing_witness :
  let fs2 := mkFilterSpec ["Male"] ["Month-to-month"] ["Yes"; "No"] (0, 72)%Z (0, 120) false in
  let fs1 := mkFilterSpec ["Male"] ["Month-to-month"] ["Yes"] (0, 24)%Z (0, 100) true in
  spec_within fs1 fs2 /\
  df_filtered fs1 (df_filtered fs2 kpi_view) = df_filtered fs1 kpi_view.
Proof.
  intros fs2 fs1.
  assert (Hw : spec_within fs1 fs2).
  { unfold spec_within; simpl.
    split; [intros a Ha; exact Ha|].
    split; [intros a Ha; exact Ha|].
    split; [intros a [<-|[]]; left; reflexivity|].
    repeat split; try discriminate; vm_compute; try discriminate; reflexivity. }
  split; [exact Hw|apply (df_filtered_narrowing fs1 fs2 kpi_view Hw)].
Defined.

Lemma unique_strings_in (l seen : list string) (s : string) :
  In s l -> In s seen \/ In s (unique_strings seen l).
Proof.
  revert seen; induction l as [|a l IH]; intros seen Hs; [destruct Hs|].
  destruct Hs as [->|H]; simpl.
  - destruct (existsb (String.eqb s) seen) eqn:E.
    + left; apply existsb_exists in E as [y [Hy Ey]].
      apply String.eqb_eq in Ey; subst; exact Hy.
    + right; left; reflexivity.
  - destruct (existsb (String.eqb a) seen); [apply IH, H|].
    destruct (IH (a :: seen) H) as [[<-|H']|H'].
    + right; left; reflexivity.
    + left; exact H'.
    + right; right; exact H'.
Qed.

Lemma observed_in (name : string) (df : view) (x : trow) (s : string) :
  In x df -> lookup name x = CStr s -> In s (observed name df).
Proof.
  intros Hx Hs; unfold observed.
  destruct (unique_strings_in
              (flat_map (fun x => match lookup name x with CStr s => [s] | _ => [] end) df)
              [] s) as [[]|H]; [|exact H].
  apply in_flat_map; exists x; split; [exact Hx|rewrite Hs; left; reflexivity].
Qed.

Lemma fold_max_bound (qs : list Q) (m : Q) :
  let f := fun m p => if Qle_bool m p then p else m in
  m <= fold_left f qs m /\ Forall (fun p => p <= fold_left f qs m) qs.
Proof.
  intros f; revert m; induction qs as [|a qs IH]; intros m; simpl.
  - split; [apply Qle_refl|constructor].
  - destruct (IH (f m a)) as [H1 H2].
    assert (Hm : m <= f m a /\ a <= f m a).
    { unfold f; destruct (Qle_bool m a) eqn:E.
      - split; [apply Qle_bool_iff, E|apply Qle_refl].
      - split; [apply Qle_refl|].
        apply Qlt_le_weak, Qnot_le_lt; intros C; apply Qle_bool_iff in C; congruence. }
    split; [apply Qle_trans with (f m a); [apply Hm|exact H1]|].
    constructor; [apply Qle_trans with (f m a); [apply Hm|exact H1]|exact H2].
Qed.

Lemma series_max_bound (l : list cell) (v : cell) (q : Q) :
  In v l -> cell_num v = Some q -> exists mx, series_max l = Some mx /\ q <= mx.
Proof.
  intros Hv Hq.
  assert (Hn : In q (numbers l)).
  { apply in_flat_map; exists v; split; [exact Hv|rewrite Hq; left; reflexivity]. }
  unfold series_max; destruct (numbers l) as [|q0 qs]; [destruct Hn|].
  eexists; split; [reflexivity|].
  destruct (fold_max_bound qs q0) as [H1 H2].
  destruct Hn as [<-|Hn]; [exact H1|].
  rewrite Forall_forall in H2; apply H2, Hn.
Qed.

Lemma quot_lower_bound (t : Z) (mx : Q) :
  (0 <= t)%Z -> inject_Z t <= mx -> (t <= Z.quot (Qnum mx) (Zpos (Qden mx)))%Z.
Proof.
  intros Ht H; unfold Qle in H; simpl in H.
  rewrite Z.quot_div_nonneg by nia.
  apply Z.div_le_lower_bound; lia.
Qed.

(** X6: with the form at its defaults (every observed gender, contract and
    churn status selected, tenure from 0 to [int(max)], monthly charges
    from 0 to the maximum, toggle off), every row whose three categories
    are present, whose tenure is a non-negative integer and whose monthly
    charge is a non-negative number is shown.  A row hidden by the defaults
    thus has a missing category, a tenure that is not a non-negative
    integer, or a monthly charge that is missing or negative. *)
Theorem default_form_keeps_complete_rows (df : view) (x : trow)
    (g c ch : string) (t : Z) (m : Q) :
  In x df ->
  lookup "gender" x = CStr g -> lookup "contract" x = CStr c ->
  lookup "churn_status" x = CStr ch ->
  lookup "tenure" x = CInt t -> (0 <= t)%Z ->
  cell_num (lookup "monthly_charges" x) = Some m -> 0 <= m ->
  exists fs, default_spec df = Some fs /\ In x (df_filtered fs df).
Proof.
  intros Hx Hg Hc Hch Ht Ht0 Hm Hm0.
  destruct (series_max_bound (column_of "tenure" df) (CInt t) (inject_Z t))
    as [tmax [Et Bt]]; [rewrite <- Ht; apply in_map, Hx|reflexivity|].
  destruct (series_max_bound (column_of "monthly_charges" df) (lookup "monthly_charges" x) m)
    as [mmax [Em Bm]]; [apply in_map, Hx|exact Hm|].
  eexists; split.
  - unfold default_spec; rewrite Et, Em; reflexivity.
  - rewrite df_filtered_spec_keep; apply filter_In; split; [exact Hx|].
    unfold spec_keep; simpl; rewrite Hg, Hc, Hch, Ht; unfold allowed.
    destruct (in_dec string_dec g (observed "gender" df)) as [_|N];
      [|destruct (N (observed_in _ _ _ _ Hx Hg))].
    destruct (in_dec string_dec c (observed "contract" df)) as [_|N];
      [|destruct (N (observed_in _ _ _ _ Hx Hc))].
    destruct (in_dec string_dec ch (observed "churn_status" df)) as [_|N];
      [|destruct (N (observed_in _ _ _ _ Hx Hch))].
    unfold in_range; rewrite Hm; simpl cell_num.
    rewrite andb_true_r, !andb_true_iff, !Qle_bool_iff; simpl.
    repeat split; try assumption.
    + rewrite <- Zle_Qle; exact Ht0.
    + rewrite <- Zle_Qle; apply quot_lower_bound; assumption.
Qed.

(** Witness of X6: the first customer of [kpi_view]. *)
Lemma default_form_keeps_complete_rows_witness :
  exists fs, default_spec kpi_view = Some fs /\
             In (kpi_view_row "C0" "Yes" 50) (df_filtered fs kpi_view).
Proof.
  apply (default_form_keeps_complete_rows kpi_view (kpi_view_row "C0" "Yes" 50)
           "Male" "Month-to-month" "Yes" 12 50);
    try reflexivity; try (apply Qle_bool_iff; reflexivity).
  - left; reflexivity.
  - lia.
Defined.

(** ** Further properties: the Executive Summary *)

Lemma count_le (p : trow -> bool) (l : view) : (count p l <= List.length l)%nat.
Proof.
  unfold count; induction l as [|a l IH]; simpl; [lia|].
  destruct (p a); simpl; lia.
Qed.

Lemma count_mono (p q : trow -> bool) (l : view) :
  (forall x, p x = true -> q x = true) -> (count p l <= count q l)%nat.
Proof.
  intros H; unfold count; induction l as [|a l IH]; simpl; [lia|].
  destruct (p a) eqn:E; [rewrite (H a E); simpl; lia|].
  destruct (q a); simpl; lia.
Qed.

Lemma count_disjoint (p q : trow -> bool) (l : view) :
  (forall x, p x = true -> q x = false) ->
  (count p l + count q l <= List.length l)%nat.
Proof.
  intros H; unfold count; induction l as [|a l IH]; simpl; [lia|].
  destruct (p a) eqn:E; [rewrite (H a E); simpl; lia|].
  destruct (q a); simpl; lia.
Qed.

Lemma cell_lt_gt_disjoint (v : cell) : cell_lt v 3 = true -> cell_gt v 24 = false.
Proof.
  unfold cell_lt, cell_gt; destruct (cell_num v) as [t|]; [|discriminate].
  intros H; apply negb_true_iff in H.
  assert (Ht : t < 3).
  { apply Qnot_le_lt; intros C; apply Qle_bool_iff in C; congruence. }
  assert (Ht' : t <= 24).
  { apply Qlt_le_weak, Qlt_le_trans with 3; [exact Ht|apply Qle_bool_iff; reflexivity]. }
  apply Qle_bool_iff in Ht'; rewrite Ht'; reflexivity.
Qed.

(** X7: the counts of the Executive Summary are bounded by the rows of the
    filtered view: the high-risk customers (tenure below 3 and churned) are
    among the churned ones, a high-risk customer is never loyal (tenure
    above 24), and the premium count never exceeds the rows shown. *)
Theorem summary_count_bounds (df fv : view) :
  exists s, summarize df fv = Some s /\
    (high_risk_count s <= churned_customers s)%nat /\
    (churned_customers s <= List.length fv)%nat /\
    (high_risk_count s + loyal_count s <= List.length fv)%nat /\
    (premium_count s <= List.length fv)%nat.
Proof.
  destruct (summarize_shape df fv) as (cr & hr & pr & lo & _ & E).
  eexists; split; [exact E|]; simpl.
  split; [|split; [|split]].
  - apply count_mono; intros x H; apply andb_true_iff in H; apply H.
  - apply count_le.
  - apply count_disjoint; intros x H; apply andb_true_iff in H as [H _].
    apply cell_lt_gt_disjoint, H.
  - apply count_le.
Qed.

Lemma guarded_pct_bound (k total : nat) (q : Q) :
  (k <= total)%nat -> guarded_pct k total = Some q -> 0 <= q /\ q <= 100.
Proof.
  unfold guarded_pct; destruct total as [|t]; simpl; intros Hk E.
  - injection E as <-; split; [apply Qle_refl|apply Qle_bool_iff; reflexivity].
  - unfold py_div in E; simpl in E; injection E as <-.
    assert (Hp : Zpos (Pos.of_succ_nat t) = Z.of_nat (S t))
      by (rewrite Zpos_P_of_succ_nat; lia).
    unfold Qnat, Qle, Qdiv, Qmult, Qinv, inject_Z; simpl.
    revert Hp; generalize (Pos.of_succ_nat t); intros p Hp; split; lia.
Qed.

Lemma summarize_pcts (df fv : view) :
  let total := nunique (column_of "customer_id" fv) in
  exists s, summarize df fv = Some s /\
    total_customers s = total /\
    guarded_pct (churned_customers s) total = Some (churn_rate s) /\
    guarded_pct (high_risk_count s) total = Some (high_risk_pct s) /\
    guarded_pct (premium_count s) total = Some (premium_pct s) /\
    guarded_pct (loyal_count s) total = Some (loyal_pct s).
Proof.
  intros total; unfold summarize; fold total.
  destruct (guarded_pct_some (count (fun x => is_yes (lookup "churn_status" x)) fv) total)
    as [cr Hcr].
  destruct (guarded_pct_some (count (fun x => cell_lt (lookup "tenure" x) 3 &&
                                   is_yes (lookup "churn_status" x)) fv) total)
    as [hr Hhr].
  destruct (guarded_pct_some (count (fun x => gt_opt (lookup "monthly_charges" x)
                          (series_median (column_of "monthly_charges" df))) fv) total)
    as [pr Hpr].
  destruct (guarded_pct_some (count (fun x => cell_gt (lookup "tenure" x) 24) fv) total)
    as [lo Hlo].
  rewrite Hcr; simpl; rewrite Hhr; simpl; rewrite Hpr; simpl; rewrite Hlo.
  eexists; split; [reflexivity|]; simpl; auto.
Qed.

(** X8: when the filtered view has one row per customer (the customer ids
    are distinct and none is missing), the total is the number of rows and
    the churn rate and the three delta percentages lie between 0 and 100. *)
Theorem summary_pcts_bounded (df fv : view) :
  distinct_cells (column_of "customer_id" fv) = true ->
  forallb (fun v => negb (cell_eqb v CNull)) (column_of "customer_id" fv) = true ->
  exists s, summarize df fv = Some s /\
    total_customers s = List.length fv /\
    0 <= churn_rate s <= 100 /\ 0 <= high_risk_pct s <= 100 /\
    0 <= premium_pct s <= 100 /\ 0 <= loyal_pct s <= 100.
Proof.
  intros Hd Hn.
  assert (Ht : nunique (column_of "customer_id" fv) = List.length fv).
  { rewrite (nunique_distinct _ Hd Hn); apply length_map. }
  destruct (summarize_pcts df fv) as (s & E & Es & Hcr & Hhr & Hpr & Hlo).
  destruct (summarize_shape df fv) as (cr & hr & pr & lo & _ & E').
  rewrite E in E'; injection E' as Es'.
  rewrite Ht in Es, Hcr, Hhr, Hpr, Hlo.
  exists s; split; [exact E|]; split; [exact Es|].
  rewrite Es' in Hcr, Hhr, Hpr, Hlo; simpl in Hcr, Hhr, Hpr, Hlo.
  rewrite Es'; simpl.
  repeat split; first
    [ apply (guarded_pct_bound _ _ _ (count_le _ _) Hcr)
    | apply (guarded_pct_bound _ _ _ (count_le _ _) Hhr)
    | apply (guarded_pct_bound _ _ _ (count_le _ _) Hpr)
    | apply (guarded_pct_bound _ _ _ (count_le _ _) Hlo) ].
Qed.

(** Witness of X8: [kpi_view] as both the base and the filtered view. *)
Lemma summary_pcts_bounded_witness :
  exists s, summarize kpi_view kpi_view = Some s /\
    total_customers s = List.length kpi_view /\
    0 <= churn_rate s <= 100 /\ 0 <= high_risk_pct s <= 100 /\
    0 <= premium_pct s <= 100 /\ 0 <= loyal_pct s <= 100.
Proof.
  apply summary_pcts_bounded; vm_compute; reflexivity.
Defined.

(** ** Further properties: the group-by charts *)

Lemma insert_str_in (s a : string) (l : list string) :
  In a (insert_str s l) <-> s = a \/ In a l.
Proof.
  induction l as [|t l IH]; simpl; [tauto|].
  destruct (String.leb s t); simpl; [tauto|].
  rewrite IH; tauto.
Qed.

Lemma sort_strings_in (a : string) (l : list string) :
  In a (sort_strings l) <-> In a l.
Proof.
  induction l as [|s l IH]; simpl; [tauto|].
  rewrite insert_str_in, IH; split; intros [H|H]; auto.
Qed.

Lemma sort_strings_nodup (l : list string) : NoDup l -> NoDup (sort_strings l).
Proof.
  induction l as [|s l IH]; simpl; intros H; [constructor|].
  apply NoDup_cons_iff in H as [Hs Hl].
  specialize (IH Hl); assert (Hn : ~ In s (sort_strings l)) by (rewrite sort_strings_in; exact Hs).
  clear Hs Hl; induction (sort_strings l) as [|t m IHm]; simpl.
  - constructor; [intros []|constructor].
  - apply NoDup_cons_iff in IH as [Ht Hm].
    destruct (String.leb s t).
    + constructor; [|constructor; assumption].
      intros [E|E]; [apply Hn; left; exact E|apply Hn; right; exact E].
    + constructor.
      * rewrite insert_str_in; intros [E|E]; [apply Hn; left; symmetry; exact E|contradiction].
      * apply IHm; [exact Hm|intros E; apply Hn; right; exact E].
Qed.

Lemma unique_strings_fresh (l seen : list string) (s : string) :
  In s (unique_strings seen l) -> ~ In s seen.
Proof.
  revert seen; induction l as [|a l IH]; simpl; intros seen H; [destruct H|].
  destruct (existsb (String.eqb a) seen) eqn:E; [apply IH, H|].
  destruct H as [<-|H].
  - intros Hin; assert (C : existsb (String.eqb a) seen = true)
      by (apply existsb_exists; exists a; split; [exact Hin|apply String.eqb_refl]).
    congruence.
  - intros Hin; apply (IH _ H); right; exact Hin.
Qed.

Lemma unique_strings_nodup (l seen : list string) : NoDup (unique_strings seen l).
Proof.
  revert seen; induction l as [|a l IH]; simpl; intros seen; [constructor|].
  destruct (existsb (String.eqb a) seen); [apply IH|].
  constructor; [|apply IH].
  intros H; apply (unique_strings_fresh _ _ _ H); left; reflexivity.
Qed.

Lemma existsb_eqb_in (s : string) (K : list string) :
  existsb (String.eqb s) K = true <-> In s K.
Proof.
  rewrite existsb_exists; split.
  - intros [y [Hy E]]; apply String.eqb_eq in E; subst; exact Hy.
  - intros H; exists s; split; [exact H|apply String.eqb_refl].
Qed.

(** The keys of [group_keys] are distinct, and every row with a present
    key has its key among them. *)
Lemma group_keys_cover (name : string) (fv : view) :
  NoDup (group_keys name fv) /\
  forall x, In x fv ->
    match lookup name x with
    | CStr s => existsb (String.eqb s) (group_keys name fv)
    | _ => false
    end = is_str (lookup name x).
Proof.
  split; [apply sort_strings_nodup, unique_strings_nodup|].
  intros x Hx; destruct (lookup name x) as [s| | | |] eqn:E; try reflexivity.
  apply existsb_eqb_in, sort_strings_in, (observed_in _ _ _ _ Hx E).
Qed.

Lemma group_disjoint (name k : string) (K : list string) (x : trow) :
  ~ In k K -> cell_eqb (lookup name x) (CStr k) = true ->
  match lookup name x with CStr s => existsb (String.eqb s) K | _ => false end = false.
Proof.
  intros Hk H; apply cell_eqb_str in H; rewrite H.
  apply not_true_iff_false; rewrite existsb_eqb_in; exact Hk.
Qed.

Lemma group_or (name k : string) (K : list string) (x : trow) :
  match lookup name x with CStr s => existsb (String.eqb s) (k :: K) | _ => false end =
  cell_eqb (lookup name x) (CStr k) ||
  match lookup name x with CStr s => existsb (String.eqb s) K | _ => false end.
Proof. destruct (lookup name x); reflexivity. Qed.

Section QPartition.
(** An additive aggregate of a frame, such as a column sum. *)
Variable F : view -> Q.
Hypothesis F_nil : F [] == 0.
Hypothesis F_cons : forall a l, F (a :: l) == F [a] + F l.

Lemma F_filter_or (p q : trow -> bool) (l : view) :
  (forall x, p x = true -> q x = false) ->
  F (filter (fun x => p x || q x) l) == F (filter p l) + F (filter q l).
Proof.
  intros H; induction l as [|a l IH]; simpl; [rewrite F_nil; ring|].
  destruct (p a) eqn:Ep; simpl.
  - rewrite (H a Ep), F_cons, IH, (F_cons a (filter p l)); ring.
  - destruct (q a); [rewrite F_cons, IH, (F_cons a (filter q l)); ring|exact IH].
Qed.

Lemma F_partition (name : string) (K : list string) (l : view) :
  NoDup K ->
  sumQ (map (fun k => F (group name k l)) K) ==
  F (filter (fun x => match lookup name x with
                      | CStr s => existsb (String.eqb s) K
                      | _ => false end) l).
Proof.
  induction K as [|k K IH]; intros Hnd; simpl.
  - rewrite (filter_all_false _ l); [symmetry; exact F_nil|].
    intros y _; destruct (lookup name y); reflexivity.
  - apply NoDup_cons_iff in Hnd as [Hk Hnd].
    rewrite (filter_ext _ _ (group_or name k K)).
    rewrite F_filter_or by (intros x; apply group_disjoint, Hk).
    rewrite (IH Hnd); reflexivity.
Qed.

(** Summing a group-by aggregate over the groups gives the aggregate of
    the rows whose key is present. *)
Lemma groupby_sumQ (name : string) (fv : view) :
  sumQ (map (fun k => F (group name k fv)) (group_keys name fv)) ==
  F (filter (fun x => is_str (lookup name x)) fv).
Proof.
  destruct (group_keys_cover name fv) as [Hnd Hc].
  rewrite (F_partition _ _ _ Hnd), (filter_ext_in _ _ _ Hc); reflexivity.
Qed.
End QPartition.

Section NatPartition.
Variable F : view -> nat.
Hypothesis F_nil : F [] = 0%nat.
Hypothesis F_cons : forall a l, F (a :: l) = (F [a] + F l)%nat.

Lemma Fn_filter_or (p q : trow -> bool) (l : view) :
  (forall x, p x = true -> q x = false) ->
  F (filter (fun x => p x || q x) l) = (F (filter p l) + F (filter q l))%nat.
Proof.
  intros H; induction l as [|a l IH]; simpl; [rewrite F_nil; reflexivity|].
  destruct (p a) eqn:Ep; simpl.
  - rewrite (H a Ep), F_cons, IH, (F_cons a (filter p l)); lia.
  - destruct (q a); [rewrite F_cons, IH, (F_cons a (filter q l)); lia|exact IH].
Qed.

Lemma Fn_partition (name : string) (K : list string) (l : view) :
  NoDup K ->
  list_sum (map (fun k => F (group name k l)) K) =
  F (filter (fun x => match lookup name x with
                      | CStr s => existsb (String.eqb s) K
                      | _ => false end) l).
Proof.
  induction K as [|k K IH]; intros Hnd; simpl.
  - rewrite (filter_all_false _ l); [symmetry; exact F_nil|].
    intros y _; destruct (lookup name y); reflexivity.
  - apply NoDup_cons_iff in Hnd as [Hk Hnd].
    rewrite (filter_ext _ _ (group_or name k K)).
    rewrite Fn_filter_or by (intros x; apply group_disjoint, Hk).
    rewrite (IH Hnd); reflexivity.
Qed.

Lemma groupby_sum_nat (name : string) (fv : view) :
  list_sum (map (fun k => F (group name k fv)) (group_keys name fv)) =
  F (filter (fun x => is_str (lookup name x)) fv).
Proof.
  destruct (group_keys_cover name fv) as [Hnd Hc].
  rewrite (Fn_partition _ _ _ Hnd), (filter_ext_in _ _ _ Hc); reflexivity.
Qed.
End NatPartition.

Lemma series_sum_nil (name : string) : series_sum (column_of name []) == 0.
Proof. reflexivity. Qed.

Lemma series_sum_cons (name : string) (a : trow) (l : view) :
  series_sum (column_of name (a :: l)) ==
  series_sum (column_of name [a]) + series_sum (column_of name l).
Proof.
  unfold series_sum, column_of, numbers, sumQ; simpl.
  destruct (cell_num (lookup name a)); simpl; ring.
Qed.

Lemma series_sum_filter_cons (p : trow -> bool) (name : string) (a : trow) (l : view) :
  series_sum (column_of name (filter p (a :: l))) ==
  series_sum (column_of name (filter p [a])) + series_sum (column_of name (filter p l)).
Proof.
  simpl; destruct (p a).
  - rewrite series_sum_cons; reflexivity.
  - unfold series_sum, sumQ; simpl; ring.
Qed.

Lemma count_cons (p : trow -> bool) (a : trow) (l : view) :
  count p (a :: l) = (count p [a] + count p l)%nat.
Proof. unfold count; simpl; destruct (p a); reflexivity. Qed.

(** X9: the bars of "Revenue by Contract" split the filtered revenue by
    contract: the total_revenue column sums to the monthly charges of the
    rows that have a contract, and the churned_revenue column to those of
    the churned rows that have a contract.  Rows with a missing contract
    appear in no bar. *)
Theorem rev_by_contract_partition (fv : view) :
  sumQ (map total_revenue (df_rev fv)) ==
    series_sum (column_of "monthly_charges"
                  (filter (fun x => is_str (lookup "contract" x)) fv)) /\
  sumQ (map churned_revenue (df_rev fv)) ==
    series_sum (column_of "monthly_charges"
                  (filter (fun x => is_yes (lookup "churn_status" x))
                     (filter (fun x => is_str (lookup "contract" x)) fv))).
Proof.
  unfold df_rev; rewrite !map_map; split.
  - exact (groupby_sumQ (fun g => series_sum (column_of "monthly_charges" g))
             (series_sum_nil _) (series_sum_cons _) "contract" fv).
  - exact (groupby_sumQ (fun g => series_sum (column_of "monthly_charges"
                          (filter (fun x => is_yes (lookup "churn_status" x)) g)))
             (series_sum_nil _) (series_sum_filter_cons _ _) "contract" fv).
Qed.

(** X10: when every churned row of the filtered view has a contract, twelve
    times the churned_revenue column of "Revenue by Contract" is the
    Revenue at Risk tile of the Executive Summary. *)
Theorem churned_revenue_matches_risk (df fv : view) :
  (forall x, In x fv -> is_yes (lookup "churn_status" x) = true ->
             is_str (lookup "contract" x) = true) ->
  exists s, summarize df fv = Some s /\
            sumQ (map churned_revenue (df_rev fv)) * 12 == revenue_at_risk s.
Proof.
  intros H.
  destruct (summarize_shape df fv) as (cr & hr & pr & lo & _ & E).
  eexists; split; [exact E|]; simpl.
  rewrite (proj2 (rev_by_contract_partition fv)), filter_filter_and.
  rewrite (filter_ext_in _ (fun x => is_yes (lookup "churn_status" x)) fv);
    [reflexivity|].
  intros x Hx; destruct (is_yes (lookup "churn_status" x)) eqn:Ey.
  - rewrite (H x Hx Ey); reflexivity.
  - apply andb_false_r.
Qed.

(** Witness of X10: [kpi_view], where every row has a contract. *)
Lemma churned_revenue_matches_risk_witness :
  exists s, summarize kpi_view kpi_view = Some s /\
            sumQ (map churned_revenue (df_rev kpi_view)) * 12 == revenue_at_risk s.
Proof.
  apply churned_revenue_matches_risk.
  intros x Hx _; repeat (destruct Hx as [<-|Hx]; [reflexivity|]); destruct Hx.
Defined.

(** X11: the customers and churned columns of the CLV table count, over
    all contracts, the rows with a present customer id and the churned
    rows, among the rows that have a contract.  The customers column counts
    rows, not distinct customers. *)
Theorem clv_counts_partition (fv : view) :
  list_sum (map customers (df_clv fv)) =
    count (fun x => negb (cell_eqb (lookup "customer_id" x) CNull))
          (filter (fun x => is_str (lookup "contract" x)) fv) /\
  list_sum (map churned (df_clv fv)) =
    count (fun x => is_yes (lookup "churn_status" x))
          (filter (fun x => is_str (lookup "contract" x)) fv).
Proof.
  unfold df_clv; rewrite !map_map; split.
  - exact (groupby_sum_nat (count (fun x => negb (cell_eqb (lookup "customer_id" x) CNull)))
             eq_refl (count_cons _) "contract" fv).
  - exact (groupby_sum_nat (count (fun x => is_yes (lookup "churn_status" x)))
             eq_refl (count_cons _) "contract" fv).
Qed.

(** X12: the stages of the revenue funnel sum to the monthly charges of the
    filtered rows whose churn status is present. *)
Theorem funnel_partition (fv : view) :
  sumQ (map snd (df_funnel fv)) ==
  series_sum (column_of "monthly_charges"
                (filter (fun x => is_str (lookup "churn_status" x)) fv)).
Proof.
  unfold df_funnel; rewrite map_map.
  exact (groupby_sumQ (fun g => series_sum (column_of "monthly_charges" g))
           (series_sum_nil _) (series_sum_cons _) "churn_status" fv).
Qed.

(** ** Further properties: the normalizer, the reruns, the connection *)

(** X13: steps 2-4 of the script touch only the five boolean-coded
    columns, the seven service columns and TotalCharges: every other column
    (the customer id, gender, tenure, contract, monthly charges, churn
    label, ...) keeps its values, row for row and in order. *)
Theorem normalize_untouched (df : frame) (c : column) :
  ~ In c (bool_fields ++ replace_cols ++ [TotalCharges]) ->
  map (fun r => r c) (normalize df) = map (fun r => r c) df.
Proof.
  intros Hc; rewrite normalize_map, map_map; apply map_ext; intros r.
  rewrite norm_row_cell.
  destruct c; try reflexivity; exfalso; apply Hc; simpl; tauto.
Qed.

(** Witness of X13: the customer id column of two example rows. *)
Lemma normalize_untouched_witness :
  ~ In customerID (bool_fields ++ replace_cols ++ [TotalCharges]) /\
  map (fun r => r customerID)
      (normalize [example_raw "C1" (CStr "Yes") (CStr " ");
                  example_raw "C2" (CStr "No") (CStr "2")]) =
  map (fun r => r customerID)
      [example_raw "C1" (CStr "Yes") (CStr " "); example_raw "C2" (CStr "No") (CStr "2")].
Proof.
  assert (H : ~ In customerID (bool_fields ++ replace_cols ++ [TotalCharges])).
  { simpl; intros H; repeat (destruct H as [H|H]; [discriminate|]); exact H. }
  split; [exact H|apply (normalize_untouched _ _ H)].
Defined.

Lemma session_applied (ps : list bool) : session (Some true) ps = ps.
Proof.
  induction ps as [|p ps IH]; [reflexivity|].
  destruct p; simpl; rewrite IH; reflexivity.
Qed.

(** X14: the dashboard is rendered on the first run of a session whether
    or not Apply was pressed, and on every later run exactly when Apply was
    pressed; any other rerun only shows the "Adjust filters" message. *)
Theorem session_renders (p : bool) (ps : list bool) :
  session None (p :: ps) = true :: ps.
Proof.
  destruct p; simpl; rewrite session_applied; reflexivity.
Qed.

Lemma string_append_assoc (a b c : string) : ((a ++ b) ++ c = a ++ (b ++ c))%string.
Proof.
  induction a as [|ch a IH]; simpl; [reflexivity|rewrite IH; reflexivity].
Qed.

(** X15: the connection URL is built without escaping the credentials: a
    ':' in the user name or an '@' in the password moves text between
    fields, so different credentials give the same URL. *)
Theorem connection_url_unescaped (u x y h p d : string) :
  connection_url (u ++ ":" ++ x) y h p d = connection_url u (x ++ ":" ++ y) h p d /\
  connection_url u (x ++ "@" ++ y) h p d = connection_url u x (y ++ "@" ++ h) p d.
Proof.
  unfold connection_url; split; rewrite !string_append_assoc; reflexivity.
Qed.

Lemma cell_lt_gt_disjoint6 (v : cell) : cell_lt v 6 = true -> cell_gt v 24 = false.
Proof.
  unfold cell_lt, cell_gt; destruct (cell_num v) as [t|]; [|discriminate].
  intros H; apply negb_true_iff in H.
  assert (Ht : t < 6).
  { apply Qnot_le_lt; intros C; apply Qle_bool_iff in C; congruence. }
  assert (Ht' : t <= 24).
  { apply Qlt_le_weak, Qlt_le_trans with 6; [exact Ht|apply Qle_bool_iff; reflexivity]. }
  apply Qle_bool_iff in Ht'; rewrite Ht'; reflexivity.
Qed.

Lemma count_all (p : trow -> bool) (l : view) :
  (forall x, In x l -> p x = true) -> count p l = List.length l.
Proof.
  intros H; unfold count; rewrite forallb_filter_id; [reflexivity|].
  apply forallb_forall, H.
Qed.

Lemma count_none (p : trow -> bool) (l : view) :
  (forall x, In x l -> p x = false) -> count p l = 0%nat.
Proof. intros H; unfold count; rewrite filter_all_false by exact H; reflexivity. Qed.

(** X16: with the high-risk toggle on, every displayed row is a churned
    customer with tenure below 6: the churned count equals the number of
    displayed rows and the loyal count is 0. *)
Theorem high_risk_view_summary (fs : filter_spec) (df : view) :
  high_risk_toggle fs = true ->
  Forall (fun x => cell_lt (lookup "tenure" x) 6 = true /\
                   is_yes (lookup "churn_status" x) = true) (df_filtered fs df) /\
  exists s, executive_summary fs df = Some s /\
    churned_customers s = List.length (df_filtered fs df) /\
    loyal_count s = 0%nat.
Proof.
  intros Ht.
  assert (Hx : forall x, In x (df_filtered fs df) ->
                 cell_lt (lookup "tenure" x) 6 = true /\ is_yes (lookup "churn_status" x) = true).
  { intros x Hx; unfold df_filtered in Hx; rewrite Ht in Hx.
    apply filter_In in Hx as [_ Hx]; apply andb_true_iff, Hx. }
  split; [apply Forall_forall; exact Hx|].
  unfold executive_summary.
  destruct (summarize_shape df (df_filtered fs df)) as (cr & hr & pr & lo & _ & E).
  eexists; split; [exact E|]; simpl; split.
  - apply count_all; intros x H; apply (Hx x H).
  - apply count_none; intros x H; apply cell_lt_gt_disjoint6, (Hx x H).
Qed.

(** Witness of X16: the toggle on [kpi_view]. *)
Lemma high_risk_view_summary_witness :
  let fs := mkFilterSpec ["Male"] ["Month-to-month"] ["Yes"; "No"] (0, 72)%Z (0, 120) true in
  Forall (fun x => cell_lt (lookup "tenure" x) 6 = true /\
                   is_yes (lookup "churn_status" x) = true) (df_filtered fs kpi_view) /\
  exists s, executive_summary fs kpi_view = Some s /\
    churned_customers s = List.length (df_filtered fs kpi_view) /\
    loyal_count s = 0%nat.
Proof.
  intros fs; apply high_risk_view_summary; reflexivity.
Defined.
